(** * The dual-configuration morph engine

  A shallow embedding of the position generators ([utils/math.ts]), the
  morph progress controller and photo upload handler ([App.tsx]), the
  per-frame population updates ([Ornaments], [GiftBoxes], [Foliage],
  [PhotoItem]), the gesture pipeline ([GestureController.tsx]), the star
  and the spiral wire ([TreeAccessories.tsx]) and the snow ([Snow.tsx]).

  Conventions.  A JavaScript [number] that carries a measurement (a
  coordinate, an angle, a time, a score, the progress value) is a real
  number: rounding of IEEE doubles is abstracted away, except in module
  [Doubles], which evaluates single formulas in binary64.  Array indices and
  entity counts are natural numbers.  [Math.random] is an explicit state
  monad over a sequence of draws.  A React ref to a scene object is an
  [option], [None] while nothing is mounted. *)

From Stdlib Require Import Reals Lra Lia List String Bool Arith DecimalString.
From Stdlib Require Import Floats.PrimFloat.
Import ListNotations.

Open Scope R_scope.

(** ** The fragment of three.js the sources call *)

Module THREE.

(** [THREE.Vector3] *)
Record Vector3 : Type := mkVector3 { x : R; y : R; z : R }.

(** [THREE.Euler] (rotation order XYZ), as its three angles. *)
Record Euler : Type := mkEuler { ex : R; ey : R; ez : R }.

Definition origin : Vector3 := mkVector3 0 0 0.

(** [MathUtils.lerp(x, y, t)] is [(1 - t) * x + t * y]. *)
Definition lerp (a b t : R) : R := (1 - t) * a + t * b.

(** [MathUtils.mapLinear(x, a1, a2, b1, b2)]. *)
Definition mapLinear (v a1 a2 b1 b2 : R) : R :=
  b1 + (v - a1) * (b2 - b1) / (a2 - a1).

(** [new Vector3().lerpVectors(v1, v2, alpha)]: each component is
    [v1 + (v2 - v1) * alpha]. *)
Definition lerpVectors (v1 v2 : Vector3) (alpha : R) : Vector3 :=
  mkVector3 (x v1 + (x v2 - x v1) * alpha)
            (y v1 + (y v2 - y v1) * alpha)
            (z v1 + (z v2 - z v1) * alpha).

(** [v.lerp(w, alpha)]: each component moves by [(w - v) * alpha]. *)
Definition lerpTo (v w : Vector3) (alpha : R) : Vector3 :=
  mkVector3 (x v + (x w - x v) * alpha)
            (y v + (y w - y v) * alpha)
            (z v + (z w - z v) * alpha).

(** [v.multiplyScalar(s)] *)
Definition multiplyScalar (v : Vector3) (s : R) : Vector3 :=
  mkVector3 (x v * s) (y v * s) (z v * s).

(** GLSL [mix(a, b, t)] on [vec3]: [a * (1 - t) + b * t]. *)
Definition mix (a b : Vector3) (t : R) : Vector3 :=
  mkVector3 (x a * (1 - t) + x b * t)
            (y a * (1 - t) + y b * t)
            (z a * (1 - t) + z b * t).

(** Squared distance of a point from the vertical (y) axis. *)
Definition axisDistSq (v : Vector3) : R := x v * x v + z v * z v.

End THREE.

Import THREE.

(** ** [Math.random] as a state monad *)

Module Random.

(** The generator: an infinite sequence of draws, each in [[0,1)], and the
    number of draws already consumed. *)
Record Rng : Type := mkRng { draws : nat -> R; cursor : nat }.

Definition Rand (A : Type) : Type := Rng -> A * Rng.

Definition ret {A} (a : A) : Rand A := fun g => (a, g).

Definition bind {A B} (m : Rand A) (k : A -> Rand B) : Rand B :=
  fun g => let (a, g') := m g in k a g'.

(** [Math.random()] *)
Definition random : Rand R :=
  fun g => (draws g (cursor g), mkRng (draws g) (S (cursor g))).

(** [xs.map(f)] where [f] draws: left to right. *)
Fixpoint mapM {A B} (f : A -> Rand B) (l : list A) : Rand (list B) :=
  match l with
  | [] => ret []
  | a :: l' => bind (f a) (fun b => bind (mapM f l') (fun bs => ret (b :: bs)))
  end.

(** The next draw, [k] draws ahead of the cursor. *)
Definition peek (g : Rng) (k : nat) : R := draws g (cursor g + k).

(** The generator after one more draw. *)
Definition advance (g : Rng) : Rng := mkRng (draws g) (S (cursor g)).

End Random.

Import Random.

Notation "x <- m ;; k" := (bind m (fun x => k))
  (at level 61, m at next level, right associativity).

(** ** [utils/math.ts]: the position generators *)

Module MathUtils.

Definition TREE_HEIGHT : R := 12.
Definition TREE_RADIUS : R := 4.
Definition SCATTER_RADIUS : R := 15.

(** The three locals of [getTreePosition]. *)
Definition treeY (index total : nat) : R :=
  (INR index / INR total) * TREE_HEIGHT - (TREE_HEIGHT / 2).

Definition treeRadiusAt (yy : R) : R :=
  ((TREE_HEIGHT / 2) - yy) * (TREE_RADIUS / TREE_HEIGHT) * 1.5.

Definition treeAngle (index : nat) : R := INR index * 0.5.

(** [getTreePosition(index, total)] *)
Definition getTreePosition (index total : nat) : Vector3 :=
  let yy := treeY index total in
  let radius := treeRadiusAt yy in
  let angle := treeAngle index in
  mkVector3 (cos angle * radius) yy (sin angle * radius).

(** [getScatterPosition(index)]: three draws, in source order. *)
Definition getScatterPosition (index : nat) : Rand Vector3 :=
  u1 <- random ;;
  u2 <- random ;;
  u3 <- random ;;
  let theta := u1 * PI * 2 in
  let phi := acos ((u2 * 2) - 1) in
  let r := 8 + u3 * SCATTER_RADIUS in
  ret (mkVector3 (r * sin phi * cos theta)
                 (r * sin phi * sin theta)
                 (r * cos phi)).

(** The locals of [getGalleryPosition]. *)
Definition galleryRadius : R := 6.

Definition angleStep (total : nat) : R :=
  (PI * 2) / INR (Nat.min total 8).

Definition ringIndex (index : nat) : nat := index / 8.

Definition positionInRing (index : nat) : nat := index mod 8.

Definition ringY (ring : nat) : R := INR ring * 2.5 - 2.

(** The object [getGalleryPosition] returns. *)
Record Placement : Type := mkPlacement { pos : Vector3; rot : Euler }.

Section Gallery.

(** [Object3D.lookAt]: the Euler rotation three.js gives an object placed
    at the first point so that it looks at the second.  It is library
    code, taken as a parameter. *)
Variable lookAt : Vector3 -> Vector3 -> Euler.

(** [getGalleryPosition(index, total)] *)
Definition getGalleryPosition (index total : nat) : Placement :=
  let radius := galleryRadius in
  let step := angleStep total in
  let ring := ringIndex index in
  let slot := positionInRing index in
  let angle := INR slot * step in
  let yy := ringY ring in
  let p := mkVector3 (cos angle * radius) yy (sin angle * radius) in
  mkPlacement p (lookAt p origin).

End Gallery.

End MathUtils.

Import MathUtils.

(** ** [types.ts] *)

Inductive AppState : Type := TREE | SCATTERED.

(** [isPlaceholder?: boolean]: an optional field. *)
Record PhotoData : Type := mkPhotoData {
  id : string;
  url : string;
  aspectRatio : R;
  isPlaceholder : option bool
}.

(** JavaScript truthiness of an optional boolean ([undefined] is falsy). *)
Definition truthy (b : option bool) : bool :=
  match b with Some true => true | _ => false end.

(** The commands [onGesture] carries. *)
Inductive Command : Type := SCATTER | GATHER.

(** ** [App.tsx] *)

Module App.

Definition PLACEHOLDER_URL : string :=
  "data:image/png;base64,iVBORw0KGgoAAAANSUhEUgAAAAEAAAABCAYAAAAfFcSJAAAADUlEQVR42mNk+M9QDwADhgGAWjR9awAAAABJRU5ErkJggg==".

Definition MAX_PLACEHOLDERS : nat := 8.

(** Template literal [`${i}`] for a natural number. *)
Definition natToString (i : nat) : string :=
  NilZero.string_of_uint (Nat.to_uint i).

Definition placeholder (i : nat) : PhotoData :=
  mkPhotoData ("placeholder-" ++ natToString i)%string PLACEHOLDER_URL 1 (Some true).

Definition DEFAULT_PHOTOS : list PhotoData :=
  map placeholder (seq 0 MAX_PLACEHOLDERS).

(** *** [MainScene]: the smoothed progress *)

Definition morphTarget (appState : AppState) : R :=
  match appState with SCATTERED => 1 | TREE => 0 end.

(** The updater passed to [setSmoothProgress] by [animate]: one tick. *)
Definition animate (target prev : R) : R :=
  let diff := target - prev in
  if Rlt_dec (Rabs diff) 0.001 then target
  else prev + diff * 0.05.

(** [n] animation frames with an unchanged target. *)
Fixpoint ticks (n : nat) (target prev : R) : R :=
  match n with
  | O => prev
  | S n' => ticks n' target (animate target prev)
  end.

(** *** [toggleState] and [handleGesture] *)

Definition toggleState (prev : AppState) : AppState :=
  match prev with TREE => SCATTERED | SCATTERED => TREE end.

(** [handleGesture] reads the [appState] of the render that created it and
    may call [setAppState]; the result is that call, if any. *)
Definition handleGesture (appState : AppState) (command : Command)
  : option AppState :=
  match command, appState with
  | SCATTER, TREE => Some SCATTERED
  | SCATTER, SCATTERED => None
  | GATHER, SCATTERED => Some TREE
  | GATHER, TREE => None
  end.

(** The effect of an optional [setAppState] call on the current state. *)
Definition setAppState (call : option AppState) (current : AppState)
  : AppState :=
  match call with Some s => s | None => current end.

(** [applyGesture]: [handleGesture] run against the state it closes over. *)
Definition applyGesture (command : Command) (current : AppState) : AppState :=
  setAppState (handleGesture current command) current.

(** *** [handlePhotoUpload] *)

Section Upload.

(** Browser [File] objects, [URL.createObjectURL], and the rendering of a
    draw by [.toString(36).substr(2, 9)] are supplied by the platform. *)
Variable File : Type.
Variable createObjectURL : File -> string.
Variable base36 : R -> string.

(** The object literal built for one uploaded file. *)
Definition newPhoto (u : R) (f : File) : PhotoData :=
  mkPhotoData (base36 u) (createObjectURL f) 1 (Some false).

(** [next[i] = v] on an array, for [i] within bounds. *)
Fixpoint assign (i : nat) (v : PhotoData) (next : list PhotoData)
  : list PhotoData :=
  match next, i with
  | [], _ => []
  | _ :: t, O => v :: t
  | h :: t, S i' => h :: assign i' v t
  end.

(** The [for] loop: [fuel] bounds the remaining iterations, [i] is the loop
    index, [next] and [fileIdx] are the mutable locals. *)
Fixpoint fillPlaceholders (fuel i : nat) (files : list File)
  (next : list PhotoData) (fileIdx : nat) : Rand (list PhotoData * nat) :=
  match fuel with
  | O => ret (next, fileIdx)
  | S fuel' =>
    if (i <? List.length next)%nat && (fileIdx <? List.length files)%nat then
      match nth_error next i, nth_error files fileIdx with
      | Some p, Some f =>
        if truthy (isPlaceholder p) then
          u <- random ;;
          fillPlaceholders fuel' (S i) files
            (assign i (newPhoto u f) next) (S fileIdx)
        else fillPlaceholders fuel' (S i) files next fileIdx
      | _, _ => ret (next, fileIdx)
      end
    else ret (next, fileIdx)
  end.

(** The [while] loop that appends what is left. *)
Fixpoint appendRemaining (fuel : nat) (files : list File)
  (next : list PhotoData) (fileIdx : nat) : Rand (list PhotoData) :=
  match fuel with
  | O => ret next
  | S fuel' =>
    if (fileIdx <? List.length files)%nat then
      match nth_error files fileIdx with
      | Some f =>
        u <- random ;;
        appendRemaining fuel' files (next ++ [newPhoto u f]) (S fileIdx)
      | None => ret next
      end
    else ret next
  end.

(** [handlePhotoUpload]: [e.target.files] may be [null]; the result is the
    new value of [photos].  Each loop gets as much fuel as it can use. *)
Definition handlePhotoUpload (targetFiles : option (list File))
  (prev : list PhotoData) : Rand (list PhotoData) :=
  match targetFiles with
  | Some files =>
    if (0 <? List.length files)%nat then
      st <- fillPlaceholders (List.length prev) 0 files prev 0 ;;
      appendRemaining (List.length files - snd st) files (fst st) (snd st)
    else ret prev
  | None => ret prev
  end.

(** The upload policy in the words of the specification: new items fill
    placeholders first, in index order, and the rest is appended. *)
Fixpoint fillThenAppend (prev items : list PhotoData) : list PhotoData :=
  match prev, items with
  | [], _ => items
  | _, [] => prev
  | p :: ps, it :: its =>
    if truthy (isPlaceholder p) then it :: fillThenAppend ps its
    else p :: fillThenAppend ps items
  end.

(** The items an upload creates: file [k] gets the [k]-th next draw. *)
Fixpoint newItems (g : Rng) (k : nat) (files : list File) : list PhotoData :=
  match files with
  | [] => []
  | f :: fs => newPhoto (peek g k) f :: newItems g (S k) fs
  end.

End Upload.

End App.

(** ** [Ornaments] and [GiftBoxes] *)

Module Ornaments.

Definition ORNAMENT_COUNT : nat := 180.
Definition GIFT_COUNT : nat := 40.

(** One element of the memoised [data] array (both components). *)
Record EntityData : Type := mkEntityData {
  treePos : Vector3;
  scatterPos : Vector3;
  scale : R;
  phase : R;
  color : string
}.

(** What [tempObj] holds when [updateMatrix] composes the matrix that
    [setMatrixAt] stores: position, Euler rotation, uniform scale. *)
Record Instance : Type := mkInstance {
  position : Vector3;
  rotation : Euler;
  scalar : R
}.

(** The [InstancedMesh] behind [meshRef]. *)
Record InstancedMesh : Type := mkInstancedMesh {
  instanceMatrix : list Instance;
  needsUpdate : bool;
  rotationY : R
}.

(** [pos.y += dy] *)
Definition addY (p : Vector3) (dy : R) : Vector3 :=
  mkVector3 (x p) (y p + dy) (z p).

(** The callback of [new Array(ORNAMENT_COUNT).fill(0).map]. *)
Definition ornamentData (i : nat) : Rand EntityData :=
  let tp := multiplyScalar (getTreePosition i ORNAMENT_COUNT) 1.05 in
  sp <- getScatterPosition i ;;
  s <- random ;;
  ph <- random ;;
  c1 <- random ;;
  col <- (if Rgt_dec c1 0.7 then ret "#D4AF37"%string
          else c2 <- random ;;
               ret (if Rgt_dec c2 0.5 then "#C0C0C0" else "#B8860B")%string) ;;
  ret (mkEntityData tp sp (s * 0.3 + 0.2) (ph * PI * 2) col).

Definition ornamentsData : Rand (list EntityData) :=
  mapM ornamentData (seq 0 ORNAMENT_COUNT).

(** The body of the [for] loop of [Ornaments]' [useFrame]. *)
Definition ornamentInstance (time progress : R) (d : EntityData) : Instance :=
  let p := lerpVectors (treePos d) (scatterPos d) progress in
  let p := addY p (sin (time + phase d) * 0.05) in
  mkInstance p (mkEuler (time * 0.2) (time * 0.1) 0) (scale d).

(** [Ornaments]' [useFrame] callback; [data] has [ORNAMENT_COUNT] entries,
    so the loop rewrites every instance. *)
Definition ornamentsFrame (data : list EntityData) (time progress : R)
  (meshRef : option InstancedMesh) : option InstancedMesh :=
  match meshRef with
  | None => None
  | Some m =>
    Some (mkInstancedMesh
            (map (ornamentInstance time progress) data)
            true
            (if Rlt_dec progress 0.5 then rotationY m + 0.002
             else rotationY m))
  end.

(** The callback of [new Array(GIFT_COUNT).fill(0).map]. *)
Definition giftData (i : nat) : Rand EntityData :=
  let p := INR i / INR GIFT_COUNT in
  let adjustedIndex := (i * 2)%nat in
  let tp := getTreePosition adjustedIndex (GIFT_COUNT * 3) in
  let tp := mkVector3 (x tp * 1.2) (mapLinear p 0 1 (-5) 0) (z tp * 1.2) in
  sp <- getScatterPosition (i + 1000) ;;
  s <- random ;;
  ph <- random ;;
  c1 <- random ;;
  col <- (if Rgt_dec c1 0.5 then ret "#8B0000"%string
          else c2 <- random ;;
               ret (if Rgt_dec c2 0.5 then "#006400" else "#4B0082")%string) ;;
  ret (mkEntityData tp sp (s * 0.4 + 0.3) (ph * PI * 2) col).

Definition giftsData : Rand (list EntityData) :=
  mapM giftData (seq 0 GIFT_COUNT).

(** The body of the [for] loop of [GiftBoxes]' [useFrame]. *)
Definition giftInstance (time progress : R) (d : EntityData) : Instance :=
  let p := lerpVectors (treePos d) (scatterPos d) progress in
  let p := addY p (sin (time * 0.5 + phase d) * 0.02) in
  mkInstance p
    (mkEuler (sin (time * 0.5 + phase d) * 0.1) (time * 0.5 + phase d) 0)
    (scale d).

(** [GiftBoxes]' [useFrame] callback. *)
Definition giftBoxesFrame (data : list EntityData) (time progress : R)
  (meshRef : option InstancedMesh) : option InstancedMesh :=
  match meshRef with
  | None => None
  | Some m =>
    Some (mkInstancedMesh
            (map (giftInstance time progress) data)
            true
            (if Rlt_dec progress 0.5 then rotationY m + 0.002
             else rotationY m))
  end.

End Ornaments.

(** ** [Foliage] *)

Module Foliage.

Definition COUNT : nat := 3500.

(** One particle: its slice of the [position], [aTargetPos] and [aSize]
    attribute buffers. *)
Record Particle : Type := mkParticle {
  position : Vector3;
  aTargetPos : Vector3;
  aSize : R
}.

(** The body of the loop that fills the attribute buffers. *)
Definition particle (i : nat) : Rand Particle :=
  let treeP := getTreePosition i COUNT in
  rx <- random ;;
  rz <- random ;;
  ry <- random ;;
  let treeP := mkVector3 (x treeP + (rx - 0.5) * 0.8)
                         (y treeP + (ry - 0.5) * 0.5)
                         (z treeP + (rz - 0.5) * 0.8) in
  scatP <- getScatterPosition i ;;
  sz <- random ;;
  ret (mkParticle treeP scatP (sz * 0.6 + 0.3)).

(** The vertex shader's [pos], the point handed to the projection. *)
Definition vertexPos (uTime uProgress : R) (p : Particle) : Vector3 :=
  let pos := mix (position p) (aTargetPos p) uProgress in
  if Rlt_dec uProgress 0.5 then
    mkVector3 (x pos + sin (uTime * 1.5 + y pos) * 0.05)
              (y pos)
              (z pos + cos (uTime * 1.5 + y pos) * 0.05)
  else pos.

(** The [Points] object behind [meshRef], with its material's uniforms. *)
Record Points : Type := mkPoints {
  uTime : R;
  uProgress : R;
  rotationY : R
}.

(** [Foliage]'s [useFrame] callback. *)
Definition foliageFrame (elapsedTime progress : R) (meshRef : option Points)
  : option Points :=
  match meshRef with
  | None => None
  | Some m =>
    Some (mkPoints elapsedTime
            (lerp (uProgress m) progress 0.1)
            (if Rlt_dec progress 0.5 then rotationY m + 0.002
             else rotationY m))
  end.

End Foliage.

(** ** [PhotoItem] *)

Module PhotoGallery.

(** The [Group] behind [groupRef]; its quaternion, which the frame also
    updates, plays no part in what is proved here and is left out. *)
Record Group : Type := mkGroup { position : Vector3; scale : R }.

(** [treePos]: a tree position, shifted up. *)
Definition treePos (index total : nat) : Vector3 :=
  let v := getTreePosition (index * 30) (total * 30) in
  mkVector3 (x v) (y v + 2) (z v).

Section Item.

Variable lookAt : Vector3 -> Vector3 -> Euler.

Definition galleryPos (index total : nat) : Vector3 :=
  pos (getGalleryPosition lookAt index total).

(** [targetPos] of the frame callback, float included. *)
Definition targetPos (elapsedTime progress : R) (index total : nat)
  : Vector3 :=
  let t := lerpVectors (treePos index total) (galleryPos index total)
             progress in
  Ornaments.addY t (sin (elapsedTime + INR index) * 0.05).

(** [PhotoItem]'s [useFrame] callback. *)
Definition photoFrame (elapsedTime progress : R) (index total : nat)
  (groupRef : option Group) : option Group :=
  match groupRef with
  | None => None
  | Some g =>
    Some (mkGroup
            (lerpTo (position g) (targetPos elapsedTime progress index total)
               0.1)
            (lerp 0.8 2.5 progress))
  end.

End Item.

End PhotoGallery.

(** ** [GestureController.tsx] *)

Module GestureController.

(** One ranked entry of the classifier's answer. *)
Record Category : Type := mkCategory { categoryName : string; score : R }.

(** What [recognizeForVideo] returns: per detected hand, its number of
    landmarks and its ranked categories.  The classifier is a black box;
    its answer is an input of the model. *)
Record GestureRecognizerResult : Type := mkResult {
  landmarks : list nat;
  gestures : list (list Category)
}.

(** The refs and state of the component.  A ref is [true] when its
    [current] is not [null]. *)
Record Controller : Type := mkController {
  recognizerRef : bool;
  videoRef : bool;
  canvasRef : bool;
  srcObject : bool;
  lastVideoTimeRef : R;
  enabled : bool;
  loading : bool;
  detectedGesture : string;
  frameRequested : bool
}.

(** The component as first rendered. *)
Definition initial : Controller :=
  mkController false false false false (-1) false false "None" false.

Definition setLoading (b : bool) (c : Controller) : Controller :=
  mkController (recognizerRef c) (videoRef c) (canvasRef c) (srcObject c)
    (lastVideoTimeRef c) (enabled c) b (detectedGesture c) (frameRequested c).

Definition setRecognizer (c : Controller) : Controller :=
  mkController true (videoRef c) (canvasRef c) (srcObject c)
    (lastVideoTimeRef c) (enabled c) (loading c) (detectedGesture c)
    (frameRequested c).

Definition setSrcObject (b : bool) (c : Controller) : Controller :=
  mkController (recognizerRef c) (videoRef c) (canvasRef c) b
    (lastVideoTimeRef c) (enabled c) (loading c) (detectedGesture c)
    (frameRequested c).

Definition setLastVideoTime (t : R) (c : Controller) : Controller :=
  mkController (recognizerRef c) (videoRef c) (canvasRef c) (srcObject c)
    t (enabled c) (loading c) (detectedGesture c) (frameRequested c).

Definition setEnabled (b : bool) (c : Controller) : Controller :=
  mkController (recognizerRef c) (videoRef c) (canvasRef c) (srcObject c)
    (lastVideoTimeRef c) b (loading c) (detectedGesture c) (frameRequested c).

Definition setDetectedGesture (s : string) (c : Controller) : Controller :=
  mkController (recognizerRef c) (videoRef c) (canvasRef c) (srcObject c)
    (lastVideoTimeRef c) (enabled c) (loading c) s (frameRequested c).

Definition setFrameRequested (b : bool) (c : Controller) : Controller :=
  mkController (recognizerRef c) (videoRef c) (canvasRef c) (srcObject c)
    (lastVideoTimeRef c) (enabled c) (loading c) (detectedGesture c) b.

(** How the two awaited calls of [loadModel] can end. *)
Inductive LoadOutcome : Type := FilesetFailed | RecognizerFailed | Loaded.

(** [loadModel], up to its first [await]. *)
Definition loadModelBegin (c : Controller) : Controller := setLoading true c.

(** [loadModel], from the awaited calls to the end of [finally]. *)
Definition loadModelEnd (o : LoadOutcome) (c : Controller) : Controller :=
  match o with
  | Loaded => setLoading false (setRecognizer c)
  | FilesetFailed | RecognizerFailed => setLoading false c
  end.

(** The guard of the effect that calls [loadModel]. *)
Definition shouldLoad (active : bool) (c : Controller) : bool :=
  active && negb (recognizerRef c).

(** How [getUserMedia] can end. *)
Inductive Permission : Type := Granted | Denied.

(** [startCamera], up to installing [onloadedmetadata]; the second
    component tells whether the handler was installed. *)
Definition startCamera (p : Permission) (c : Controller) : Controller * bool :=
  if negb (recognizerRef c) then (c, false)
  else
    match p with
    | Denied => (c, false)
    | Granted =>
      if videoRef c then (setSrcObject true c, true) else (c, false)
    end.

(** [stopCamera] *)
Definition stopCamera (c : Controller) : Controller :=
  if videoRef c && srcObject c then
    setFrameRequested false (setEnabled false (setSrcObject false c))
  else c.

(** What one call of [predictWebcam] leaves behind: the component, the
    commands passed to [onGesture] in order, and whether it threw. *)
Record Outcome : Type := mkOutcome {
  after : Controller;
  emitted : list Command;
  threw : bool
}.

(** The mapping inside [if (score > 0.5)]. *)
Definition commandOf (name : string) : list Command :=
  if (name =? "Open_Palm")%string then [SCATTER]
  else if (name =? "Closed_Fist")%string then [GATHER]
  else [].

(** The block guarded by [video.currentTime !== lastVideoTimeRef.current]. *)
Definition classifyFrame (currentTime : R) (results : GestureRecognizerResult)
  (c : Controller) : Outcome :=
  let c := setLastVideoTime currentTime c in
  match gestures results with
  | [] => mkOutcome (setDetectedGesture "None" c) [] false
  | [] :: _ => mkOutcome c [] true
  | (gesture :: _) :: _ =>
    let name := categoryName gesture in
    if Rgt_dec (score gesture) 0.5 then
      mkOutcome (setDetectedGesture name c) (commandOf name) false
    else mkOutcome c [] false
  end.

(** [predictWebcam].  [enabledSeen] is the value of [enabled] in the render
    whose closure is running; [currentTime] is [video.currentTime] and
    [results] what the classifier answers for this frame. *)
Definition predictWebcam (enabledSeen : bool) (currentTime : R)
  (results : GestureRecognizerResult) (c : Controller) : Outcome :=
  if negb (videoRef c) || negb (canvasRef c) || negb (recognizerRef c) then
    mkOutcome c [] false
  else
    let o :=
      if Req_dec_T currentTime (lastVideoTimeRef c) then mkOutcome c [] false
      else classifyFrame currentTime results c in
    if threw o then o
    else if enabledSeen then
      mkOutcome (setFrameRequested true (after o)) (emitted o) false
    else o.

(** The animation-frame loop: each pending request fires [predictWebcam]
    on the next frame; the loop ends when no frame was requested or a call
    threw.  Commands are collected in order. *)
Fixpoint run (enabledSeen : bool)
  (frames : list (R * GestureRecognizerResult)) (c : Controller)
  : Controller * list Command :=
  match frames with
  | [] => (c, [])
  | (t, r) :: rest =>
    let o := predictWebcam enabledSeen t r (setFrameRequested false c) in
    if threw o || negb (frameRequested (after o)) then (after o, emitted o)
    else let (c', cmds) := run enabledSeen rest (after o) in
         (c', emitted o ++ cmds)
  end.

End GestureController.

(** ** The application as a whole: [App] wired to [GestureController] *)

Module Scene.

Import GestureController.

(** The closure of [predictWebcam] that [onloadedmetadata] and
    [requestAnimationFrame] hold: the [enabled] it sees and the [appState]
    its [onGesture] (a [handleGesture]) sees. *)
Record Closure : Type := mkClosure {
  enabledSeen : bool;
  appStateSeen : AppState
}.

Record World : Type := mkWorld {
  appState : AppState;
  smoothProgress : R;
  controller : Controller;
  callback : option Closure
}.

Inductive Event : Type :=
| ToggleClicked
| AnimationFrame
| LoadBegins
| LoadEnds (o : LoadOutcome)
| CameraButton (p : Permission)
| MetadataLoaded (t : R) (r : GestureRecognizerResult)
| GestureFrame (t : R) (r : GestureRecognizerResult).

(** [onGesture] applied to each emitted command, in order. *)
Definition forward (seen : AppState) (cmds : list Command)
  (current : AppState) : AppState :=
  fold_left (fun s cmd => App.setAppState (App.handleGesture seen cmd) s)
    cmds current.

(** A call of the held [predictWebcam] closure inside the application. *)
Definition predict (cl : Closure) (t : R) (r : GestureRecognizerResult)
  (c : Controller) (w : World) : World * list Command :=
  let o := predictWebcam (enabledSeen cl) t r c in
  (mkWorld (forward (appStateSeen cl) (emitted o) (appState w))
     (smoothProgress w) (after o) (callback w),
   emitted o).

(** One event; the second component lists the commands that reached
    [onGesture] while it was handled. *)
Definition step (e : Event) (w : World) : World * list Command :=
  let c := controller w in
  match e with
  | ToggleClicked =>
    (mkWorld (App.toggleState (appState w)) (smoothProgress w) c (callback w),
     [])
  | AnimationFrame =>
    (mkWorld (appState w)
       (App.animate (App.morphTarget (appState w)) (smoothProgress w))
       c (callback w),
     [])
  | LoadBegins =>
    if shouldLoad true c then
      (mkWorld (appState w) (smoothProgress w) (loadModelBegin c) (callback w),
       [])
    else (w, [])
  | LoadEnds o =>
    (mkWorld (appState w) (smoothProgress w) (loadModelEnd o c) (callback w),
     [])
  | CameraButton p =>
    if loading c then (w, [])
    else if enabled c then
      (mkWorld (appState w) (smoothProgress w) (stopCamera c) (callback w), [])
    else
      let (c', installed) := startCamera p c in
      (mkWorld (appState w) (smoothProgress w) c'
         (if installed then Some (mkClosure (enabled c) (appState w))
          else callback w),
       [])
  | MetadataLoaded t r =>
    match callback w with
    | Some cl => predict cl t r (setEnabled true c) w
    | None => (w, [])
    end
  | GestureFrame t r =>
    match callback w with
    | Some cl =>
      if frameRequested c then predict cl t r (setFrameRequested false c) w
      else (w, [])
    | None => (w, [])
    end
  end.

End Scene.

(** ** [TreeAccessories.tsx]: the star and the spiral wire *)

Module TreeAccessories.

(** The [Mesh] behind [StarTop]'s [meshRef]. *)
Record Mesh : Type := mkMesh {
  position : Vector3;
  rotation : Euler;
  scale : R
}.

(** The locals [treeY] and [scatterY] of [StarTop]'s frame callback. *)
Definition starTreeY : R := (TREE_HEIGHT / 2) + 0.5.

Definition starScatterY : R := starTreeY + 4.

(** [StarTop]'s [useFrame] callback; [t] is [state.clock.elapsedTime]. *)
Definition starFrame (t progress : R) (meshRef : option Mesh) : option Mesh :=
  match meshRef with
  | None => None
  | Some m =>
    Some (mkMesh
            (mkVector3 (x (position m))
               (lerp starTreeY starScatterY progress)
               (z (position m)))
            (mkEuler (ex (rotation m)) (t * 0.5) (sin t * 0.1))
            (lerp 1 1.5 progress))
  end.

(** The constants of [SpiralWire]'s geometry. *)
Definition turns : R := 5.

Definition segments : nat := 200.

(** The body of the loop that collects the control points of the wire. *)
Definition wirePoint (i : nat) : Vector3 :=
  let t := INR i / INR segments in
  let yy := (t * TREE_HEIGHT) - (TREE_HEIGHT / 2) in
  let r := ((1 - t) * TREE_RADIUS * 1.3) + 0.2 in
  let angle := t * PI * 2 * turns in
  mkVector3 (cos angle * r) yy (sin angle * r).

(** [points] after the loop [for (i = 0; i <= segments; i++)]. *)
Definition wirePoints : list Vector3 := map wirePoint (seq 0 (S segments)).

(** The [Group] behind [SpiralWire]'s [groupRef]: its uniform scale and its
    rotation about y and z. *)
Record WireGroup : Type := mkWireGroup {
  wireScale : R;
  wireRotationY : R;
  wireRotationZ : R
}.

(** [SpiralWire]'s [useFrame] callback. *)
Definition wireFrame (progress : R) (groupRef : option WireGroup)
  : option WireGroup :=
  match groupRef with
  | None => None
  | Some g =>
    Some (mkWireGroup (lerp 1 4 progress)
            (wireRotationY g + 0.005)
            (lerp 0 (PI / 8) progress))
  end.

End TreeAccessories.

(** ** [Snow.tsx] *)

Module Snow.

Definition COUNT : nat := 2000.

(** GLSL [floor] and [mod(x, y) = x - y * floor(x / y)]. *)
Definition floor (v : R) : R := IZR (Int_part v).

Definition glslMod (v w : R) : R := v - w * floor (v / w).

(** One flake: its slice of the [position], [aSpeed], [aPhase] and [aSize]
    attribute buffers. *)
Record Flake : Type := mkFlake {
  position : Vector3;
  aSpeed : R;
  aPhase : R;
  aSize : R
}.

(** The body of the loop that fills the attribute buffers. *)
Definition flake (i : nat) : Rand Flake :=
  rx <- random ;;
  ry <- random ;;
  rz <- random ;;
  rs <- random ;;
  rp <- random ;;
  rsz <- random ;;
  ret (mkFlake
         (mkVector3 ((rx - 0.5) * 60) ((ry - 0.5) * 50) ((rz - 0.5) * 60))
         (2.0 + rs * 3.0)
         (rp * PI * 2)
         (rsz * 1.5 + 0.5)).

(** The vertex shader's [pos]. *)
Definition vertexPos (uTime : R) (f : Flake) : Vector3 :=
  let height := 50.0 in
  let fall := uTime * aSpeed f in
  mkVector3
    (x (position f) + sin (uTime * 0.2 + aPhase f) * 1.5)
    (25.0 - glslMod (y (position f) + fall + 25.0) height)
    (z (position f) + cos (uTime * 0.3 + aPhase f) * 1.5).

(** The fragment shader: [None] is [discard], otherwise the alpha of
    [gl_FragColor]; [cx] and [cy] are the components of [gl_PointCoord]. *)
Definition fragmentAlpha (cx cy : R) : option R :=
  let px := 2.0 * cx - 1.0 in
  let py := 2.0 * cy - 1.0 in
  let r := px * px + py * py in
  if Rgt_dec r 1.0 then None else Some ((1.0 - r) * 0.6).

End Snow.

(** ** More of [Foliage]: the varyings and the fragment shader *)

Module FoliageShader.

(** [vAlpha] of the vertex shader. *)
Definition vAlpha (uTime : R) (p : Foliage.Particle) : R :=
  let sparkle := sin (uTime * 5.0 + x (Foliage.position p) * 10.0) * 0.5 + 0.5 in
  0.8 + 0.2 * sparkle.

(** The fragment shader: [None] is [discard], otherwise the alpha of
    [gl_FragColor]; [r] is the distance of [gl_PointCoord] from the centre
    of the point and [pow(glow, 2.0)] is the square. *)
Definition fragmentAlpha (r alpha : R) : option R :=
  if Rgt_dec r 0.5 then None
  else
    let glow := 1.0 - (r * 2.0) in
    let glow := glow * glow in
    Some (alpha * glow).

End FoliageShader.

(** ** More of [App.tsx] and of the wiring *)

Module AppMore.

(** [activePhotoCount]: [photos.filter(p => !p.isPlaceholder).length]. *)
Definition activePhotoCount (photos : list PhotoData) : nat :=
  List.length (filter (fun p => negb (truthy (isPlaceholder p))) photos).

(** The number of placeholders among the photos. *)
Definition placeholderCount (photos : list PhotoData) : nat :=
  List.length (filter (fun p => truthy (isPlaceholder p)) photos).

(** [n] clicks on the toggle. *)
Fixpoint toggles (n : nat) (s : AppState) : AppState :=
  match n with
  | O => s
  | S n' => toggles n' (App.toggleState s)
  end.

End AppMore.

Module SceneMore.

Import GestureController Scene.

(** The commit of a render of [GestureController]: the [video] and the
    [canvas] are inside [enabled && (...)], so their refs are set exactly
    while [enabled] is true. *)
Definition commit (c : Controller) : Controller :=
  mkController (recognizerRef c) (enabled c) (enabled c) (srcObject c)
    (lastVideoTimeRef c) (enabled c) (loading c) (detectedGesture c)
    (frameRequested c).

(** One event followed by the render it causes. *)
Definition stepRendered (e : Event) (w : World) : World * list Command :=
  let (w', cmds) := step e w in
  (mkWorld (appState w') (smoothProgress w') (commit (controller w'))
     (callback w'),
   cmds).

(** A sequence of events from a given handler, with all the commands that
    reached [onGesture], in order. *)
Fixpoint runWith (st : Event -> World -> World * list Command)
  (es : list Event) (w : World) : World * list Command :=
  match es with
  | [] => (w, [])
  | e :: es' =>
    let (w1, c1) := st e w in
    let (w2, c2) := runWith st es' w1 in
    (w2, c1 ++ c2)
  end.

(** The application as first rendered. *)
Definition initialWorld : World := mkWorld TREE 0 initial None.

(** The invariant of the animation-frame loop: no frame is pending and a
    held closure saw [enabled = false]. *)
Definition loopIdle (w : World) : Prop :=
  frameRequested (controller w) = false /\
  match callback w with
  | Some cl => enabledSeen cl = false
  | None => True
  end.

End SceneMore.

(** ** The generators as the specification words them *)

Module Stated.

(** Radius at height [yy] of a cone of the given height, centred on the
    origin, whose radius is [base] at the bottom and 0 at the apex. *)
Definition coneRadius (base height yy : R) : R :=
  base * ((height / 2) - yy) / height.

(** A point of the spiral cone of height 12 with the given base radius:
    height [(i/total)*12 - 6], angle [0.5 * i]. *)
Definition spiralConePoint (base : R) (i total : nat) : Vector3 :=
  let yy := (INR i / INR total) * 12 - 6 in
  let r := coneRadius base 12 yy in
  mkVector3 (cos (0.5 * INR i) * r) yy (sin (0.5 * INR i) * r).

End Stated.

(** ** Gesture traces *)

(** A classifier answer whose top-ranked category is the open hand with a
    score above the threshold. *)
Definition openPalm (r : GestureController.GestureRecognizerResult) : Prop :=
  match GestureController.gestures r with
  | (g :: _) :: _ =>
    0.5 < GestureController.score g /\
    GestureController.categoryName g = "Open_Palm"%string
  | _ => False
  end.

(** The number of frames of a sequence of timestamps whose timestamp
    differs from the one processed before it, [last] being the one
    processed before the first. *)
Fixpoint freshFrames (last : R) (ts : list R) : nat :=
  match ts with
  | [] => 0
  | t :: ts' => (if Req_dec_T t last then 0 else 1) + freshFrames t ts'
  end.

(** ** Single formulas in binary64 *)

Module Doubles.

#[local] Set Warnings "-inexact-float".




End Doubles.

(** * Properties *)

(** ** The progress controller *)

Module MorphFacts.

Import App.

Lemma animate_snap (t p : R) :
  Rabs (t - p) < 0.001 -> animate t p = t.
Proof.
  intros H. unfold animate. cbv zeta.
  destruct (Rlt_dec (Rabs (t - p)) 0.001); [reflexivity | contradiction].
Qed.

Lemma animate_decay (t p : R) :
  0.001 <= Rabs (t - p) -> animate t p = p + (t - p) * 0.05.
Proof.
  intros H. unfold animate. cbv zeta.
  destruct (Rlt_dec (Rabs (t - p)) 0.001); [lra | reflexivity].
Qed.

Lemma animate_fixed (t : R) : animate t t = t.
Proof.
  apply animate_snap. replace (t - t) with 0 by ring. rewrite Rabs_R0. lra.
Qed.

(** Whatever branch is taken, the remaining distance shrinks by at least
    the factor 0.95. *)
Lemma animate_contracts (t p : R) :
  Rabs (t - animate t p) <= 0.95 * Rabs (t - p).
Proof.
  pose proof (Rabs_pos (t - p)) as Hpos.
  destruct (Rlt_dec (Rabs (t - p)) 0.001) as [Hs | Hd].
  - rewrite (animate_snap _ _ Hs). replace (t - t) with 0 by ring.
    rewrite Rabs_R0. lra.
  - rewrite animate_decay by lra.
    replace (t - (p + (t - p) * 0.05)) with (0.95 * (t - p)) by lra.
    rewrite Rabs_mult, (Rabs_pos_eq 0.95) by lra. lra.
Qed.

Lemma animate_between (t p : R) :
  Rmin p t <= animate t p <= Rmax p t.
Proof.
  destruct (Rlt_dec (Rabs (t - p)) 0.001) as [Hs | Hd].
  - rewrite (animate_snap _ _ Hs). split; [apply Rmin_r | apply Rmax_r].
  - rewrite animate_decay by lra.
    unfold Rmin, Rmax. destruct (Rle_dec p t); lra.
Qed.

Lemma ticks_fixed (n : nat) (t : R) : ticks n t t = t.
Proof.
  induction n as [| n IH]; simpl; [reflexivity |].
  rewrite animate_fixed. exact IH.
Qed.

Lemma ticks_add (m n : nat) (t p : R) :
  ticks (m + n) t p = ticks n t (ticks m t p).
Proof.
  revert p. induction m as [| m IH]; intros p; simpl; [reflexivity |].
  apply IH.
Qed.

Lemma ticks_contracts (n : nat) (t p : R) :
  Rabs (t - ticks n t p) <= 0.95 ^ n * Rabs (t - p).
Proof.
  revert p. induction n as [| n IH]; intros p; simpl.
  - lra.
  - eapply Rle_trans; [apply IH |].
    pose proof (animate_contracts t p) as Hc.
    assert (0 <= 0.95 ^ n) by (apply pow_le; lra).
    nra.
Qed.

Lemma decay_135 : 0.95 ^ 135 < 0.001.
Proof. lra. Qed.

(** From a distance of at most one, 136 ticks are enough, and the value
    then stays on the target. *)
Lemma ticks_reach (t p : R) (n : nat) :
  Rabs (t - p) <= 1 -> (136 <= n)%nat -> ticks n t p = t.
Proof.
  intros Hd Hn.
  replace n with (135 + (1 + (n - 136)))%nat by lia.
  rewrite ticks_add, ticks_add.
  assert (Hclose : Rabs (t - ticks 135 t p) < 0.001).
  { eapply Rle_lt_trans; [apply ticks_contracts |].
    pose proof decay_135. pose proof (Rabs_pos (t - p)).
    assert (0 <= 0.95 ^ 135) by (apply pow_le; lra). nra. }
  change (ticks 1 t (ticks 135 t p)) with (animate t (ticks 135 t p)).
  rewrite (animate_snap _ _ Hclose). apply ticks_fixed.
Qed.

(** C1: for a progress value in [[0,1]] and the target of either state,
    one tick returns the target exactly when the distance is below 0.001,
    otherwise moves by 5% of the remaining distance; it never overshoots,
    never increases the distance, stays in [[0,1]], and from the 136th tick
    on the progress equals the target exactly. *)
Theorem progress_step_approaches_target (s : AppState) (p : R) :
  0 <= p <= 1 ->
  let t := morphTarget s in
  (Rabs (t - p) < 0.001 -> animate t p = t) /\
  (0.001 <= Rabs (t - p) ->
     animate t p = p + 0.05 * (t - p) /\
     t - animate t p = 0.95 * (t - p)) /\
  Rmin p t <= animate t p <= Rmax p t /\
  Rabs (t - animate t p) <= Rabs (t - p) /\
  0 <= animate t p <= 1 /\
  (forall n, (136 <= n)%nat -> ticks n t p = t).
Proof.
  intros Hp t.
  assert (Ht : 0 <= t <= 1) by (subst t; destruct s; simpl; lra).
  pose proof (animate_between t p) as Hb.
  repeat split.
  - apply animate_snap.
  - rewrite animate_decay by assumption. ring.
  - rewrite animate_decay by assumption. lra.
  - apply Hb.
  - apply Hb.
  - pose proof (animate_contracts t p). pose proof (Rabs_pos (t - p)). lra.
  - eapply Rle_trans; [| apply Hb]. apply Rmin_glb; lra.
  - eapply Rle_trans; [apply Hb |]. apply Rmax_lub; lra.
  - intros n Hn. apply ticks_reach; [| exact Hn].
    apply Rabs_le. lra.
Qed.

Lemma progress_step_approaches_target_witness :
  0 <= 0 <= 1 /\
  animate (morphTarget SCATTERED) 0 = 0 + 0.05 * (morphTarget SCATTERED - 0) /\
  ticks 136 (morphTarget SCATTERED) 0 = morphTarget SCATTERED.
Proof.
  assert (H0 : 0 <= 0 <= 1) by lra.
  pose proof (progress_step_approaches_target SCATTERED 0 H0) as H.
  cbv zeta in H.
  destruct H as (_ & Hdecay & _ & _ & _ & Hreach).
  split; [exact H0 |]. split.
  - apply Hdecay. simpl. rewrite Rminus_0_r, Rabs_R1. lra.
  - apply Hreach. lia.
Defined.

(** The bound is met: from 0 towards 1 the 135th tick is still short. *)
Lemma ticks_far (n : nat) (p : R) :
  p <= 1 -> 0.001 <= 0.95 ^ n * (1 - p) ->
  1 - ticks (S n) 1 p = 0.95 ^ S n * (1 - p).
Proof.
  revert p. induction n as [| n IH]; intros p Hp Hfar.
  - simpl in *. rewrite animate_decay; [lra |].
    rewrite Rabs_pos_eq; lra.
  - assert (Hpow : 0 < 0.95 ^ n) by (apply pow_lt; lra).
    assert (Hle : 0.95 ^ n <= 1).
    { clear. induction n as [| n IHn]; simpl; [lra |].
      assert (0 <= 0.95 ^ n) by (apply pow_le; lra). nra. }
    change (0.95 ^ S n) with (0.95 * 0.95 ^ n) in Hfar.
    assert (Hd : 0.001 <= Rabs (1 - p)) by (rewrite Rabs_pos_eq; nra).
    change (ticks (S (S n)) 1 p) with (ticks (S n) 1 (animate 1 p)).
    rewrite animate_decay by exact Hd.
    rewrite IH by nra.
    simpl. lra.
Qed.

Lemma ticks_135_short : ticks 135 1 0 <> 1.
Proof.
  assert (Hfar : 0.001 <= 0.95 ^ 134 * (1 - 0)) by lra.
  pose proof (ticks_far 134 0 ltac:(lra) Hfar) as H.
  assert (0 < 0.95 ^ 135) by (apply pow_lt; lra).
  intros Heq. rewrite Heq in H. lra.
Qed.

End MorphFacts.

(** ** The position generators *)

Module GeneratorFacts.

Import Stated.

Lemma INR_pos_of_le (n : nat) : (1 <= n)%nat -> 0 < INR n.
Proof. intros H. apply lt_0_INR. lia. Qed.

Lemma cos_sin_circle (a r : R) :
  (cos a * r) * (cos a * r) + (sin a * r) * (sin a * r) = r * r.
Proof.
  pose proof (sin2_cos2 a) as H. unfold Rsqr in H.
  replace (cos a * r * (cos a * r) + sin a * r * (sin a * r))
    with ((sin a * sin a + cos a * cos a) * (r * r)) by ring.
  rewrite H. ring.
Qed.

Lemma treeRadiusAt_cone (yy : R) : treeRadiusAt yy = coneRadius 6 12 yy.
Proof. unfold treeRadiusAt, coneRadius, TREE_HEIGHT, TREE_RADIUS. lra. Qed.

Lemma treeY_formula (i total : nat) :
  treeY i total = (INR i / INR total) * 12 - 6.
Proof. unfold treeY, TREE_HEIGHT. lra. Qed.

Lemma getTreePosition_cone (i total : nat) :
  getTreePosition i total = spiralConePoint 6 i total.
Proof.
  unfold getTreePosition, spiralConePoint. cbv zeta.
  rewrite treeRadiusAt_cone, treeY_formula. unfold treeAngle.
  rewrite (Rmult_comm (INR i) 0.5). reflexivity.
Qed.

(** At index 0 of a population of one, the generator is at distance 6 from
    the axis: the point is (6, -6, 0). *)
Lemma getTreePosition_bottom : getTreePosition 0 1 = mkVector3 6 (-6) 0.
Proof.
  rewrite getTreePosition_cone. unfold spiralConePoint, coneRadius.
  cbv zeta. simpl INR. rewrite Rmult_0_r, cos_0, sin_0.
  f_equal; field.
Qed.

(** C3, as stated, fails: the claimed cone has base radius 4, the code's
    point for index 0 of 1 is at radius 6. *)
Lemma tree_base_radius_is_not_4 :
  getTreePosition 0 1 <> spiralConePoint 4 0 1.
Proof.
  rewrite getTreePosition_bottom. intros H.
  apply (f_equal x) in H. revert H.
  unfold spiralConePoint, coneRadius. cbv zeta. simpl.
  rewrite Rmult_0_r, cos_0. lra.
Qed.

(** C3, amended: for every index and every total of at least one, the tree
    position is the point of the spiral cone of height 12 whose radius
    shrinks linearly from 6 (1.5 times [TREE_RADIUS]) at y = -6 to 0 at
    y = 6; the angle advances by 0.5 per index; the point is at distance
    [r] from the axis; for an index up to the total, y lies in [[-6, 6]]
    and the radius in [[0, 6]]. *)
Theorem tree_position_on_spiral_cone (i total : nat) :
  (1 <= total)%nat ->
  let yy := (INR i / INR total) * 12 - 6 in
  let r := coneRadius 6 12 yy in
  getTreePosition i total =
    mkVector3 (cos (0.5 * INR i) * r) yy (sin (0.5 * INR i) * r) /\
  treeAngle (S i) - treeAngle i = 0.5 /\
  coneRadius 6 12 (-6) = 6 /\
  coneRadius 6 12 6 = 0 /\
  (forall y1 y2, coneRadius 6 12 y1 - coneRadius 6 12 y2 = (y2 - y1) / 2) /\
  axisDistSq (getTreePosition i total) = r * r /\
  ((i <= total)%nat -> -6 <= yy <= 6 /\ 0 <= r <= 6).
Proof.
  intros Htotal yy r.
  assert (Hpos : 0 < INR total) by (apply INR_pos_of_le; exact Htotal).
  repeat split.
  - rewrite getTreePosition_cone. reflexivity.
  - unfold treeAngle. rewrite S_INR. lra.
  - unfold coneRadius. field.
  - unfold coneRadius. field.
  - intros y1 y2. unfold coneRadius. field.
  - rewrite getTreePosition_cone. unfold spiralConePoint, axisDistSq.
    cbv zeta. simpl. apply cos_sin_circle.
  - assert (0 <= INR i / INR total).
    { apply Rmult_le_pos; [apply pos_INR | left; apply Rinv_0_lt_compat, Hpos]. }
    subst yy. lra.
  - apply le_INR in H.
    assert (INR i / INR total <= 1).
    { apply Rmult_le_reg_r with (INR total); [exact Hpos |].
      unfold Rdiv. rewrite Rmult_assoc, Rinv_l by lra. lra. }
    subst yy. lra.
  - apply le_INR in H.
    assert (INR i / INR total <= 1).
    { apply Rmult_le_reg_r with (INR total); [exact Hpos |].
      unfold Rdiv. rewrite Rmult_assoc, Rinv_l by lra. lra. }
    subst r yy. unfold coneRadius. lra.
  - assert (0 <= INR i / INR total).
    { apply Rmult_le_pos; [apply pos_INR | left; apply Rinv_0_lt_compat, Hpos]. }
    subst r yy. unfold coneRadius. lra.
Qed.

Lemma tree_position_on_spiral_cone_witness :
  (1 <= 1)%nat /\ getTreePosition 0 1 = mkVector3 6 (-6) 0.
Proof.
  split; [exact (le_n 1) |].
  destruct (tree_position_on_spiral_cone 0 1 (le_n 1)) as (H & _).
  rewrite H. simpl INR. unfold coneRadius.
  rewrite Rmult_0_r, cos_0, sin_0. f_equal; field.
Defined.

(** *** The gallery rings *)

Lemma ringIndex_next (i : nat) : ringIndex (i + 8) = S (ringIndex i).
Proof.
  unfold ringIndex.
  replace (i + 8)%nat with (i + 1 * 8)%nat by lia.
  rewrite Nat.div_add by lia. lia.
Qed.

Lemma positionInRing_next (i : nat) :
  positionInRing (i + 8) = positionInRing i.
Proof.
  unfold positionInRing.
  replace (i + 8)%nat with (i + 1 * 8)%nat by lia.
  apply Nat.Div0.mod_add.
Qed.

Lemma ringY_step (k : nat) : ringY (S k) - ringY k = 2.5.
Proof. unfold ringY. rewrite S_INR. lra. Qed.

(** C6: index [i] sits on ring [i / 8] at slot [i mod 8], at distance 6
    from the vertical axis and at height [ring * 2.5 - 2]; one ring up is
    exactly 2.5 higher with the same slot; for a total of 10, index 0 is
    ring 0 slot 0 and index 8 is ring 1 slot 0, 2.5 above; the orientation
    is the look-at rotation from the position towards the origin, and the
    position is never the origin. *)
Theorem gallery_ring_assignment
  (lookAt : Vector3 -> Vector3 -> Euler) (i total : nat) :
  (1 <= total)%nat ->
  pos (getGalleryPosition lookAt i total) =
    mkVector3
      (cos (INR (i mod 8) * ((PI * 2) / INR (Nat.min total 8))) * 6)
      (INR (i / 8) * 2.5 - 2)
      (sin (INR (i mod 8) * ((PI * 2) / INR (Nat.min total 8))) * 6) /\
  axisDistSq (pos (getGalleryPosition lookAt i total)) = 6 * 6 /\
  (forall k, ringY (S k) - ringY k = 2.5) /\
  (ringIndex (i + 8) = S (ringIndex i) /\
   positionInRing (i + 8) = positionInRing i /\
   y (pos (getGalleryPosition lookAt (i + 8)%nat total))
     - y (pos (getGalleryPosition lookAt i total)) = 2.5) /\
  (ringIndex 0 = 0%nat /\ positionInRing 0 = 0%nat /\
   ringIndex 8 = 1%nat /\ positionInRing 8 = 0%nat /\
   y (pos (getGalleryPosition lookAt 8%nat 10%nat))
     - y (pos (getGalleryPosition lookAt 0%nat 10%nat)) = 2.5) /\
  rot (getGalleryPosition lookAt i total)
    = lookAt (pos (getGalleryPosition lookAt i total)) origin /\
  pos (getGalleryPosition lookAt i total) <> origin.
Proof.
  intros Htotal. unfold getGalleryPosition. cbv zeta. simpl.
  repeat split.
  - unfold galleryRadius, axisDistSq. simpl. apply cos_sin_circle.
  - apply ringY_step.
  - apply ringIndex_next.
  - apply positionInRing_next.
  - rewrite ringIndex_next. apply ringY_step.
  - unfold ringY. simpl. lra.
  - intros H.
    assert (Hd : axisDistSq
              (mkVector3
                 (cos (INR (positionInRing i) * angleStep total) * galleryRadius)
                 (ringY (ringIndex i))
                 (sin (INR (positionInRing i) * angleStep total) * galleryRadius))
            = axisDistSq origin) by (rewrite H; reflexivity).
    unfold axisDistSq in Hd. simpl in Hd.
    rewrite cos_sin_circle in Hd. unfold galleryRadius in Hd. lra.
Qed.

Lemma gallery_ring_assignment_witness :
  let place := getGalleryPosition (fun _ _ => mkEuler 0 0 0) in
  (1 <= 10)%nat /\
  y (pos (place 8%nat 10%nat)) - y (pos (place 0%nat 10%nat)) = 2.5.
Proof.
  intros place.
  assert (H10 : (1 <= 10)%nat) by lia.
  split; [exact H10 |].
  destruct (gallery_ring_assignment (fun _ _ => mkEuler 0 0 0) 0 10 H10)
    as (_ & _ & _ & H & _).
  destruct H as (_ & _ & H). exact H.
Defined.


End GeneratorFacts.

(** ** The per-frame population updates *)

Module PopulationFacts.



Lemma sin_offset_bound (a k : R) : 0 <= k -> Rabs (sin a * k) <= k.
Proof.
  intros Hk. rewrite Rabs_mult, (Rabs_pos_eq k) by exact Hk.
  pose proof (SIN_bound a) as [Hlo Hhi].
  assert (Rabs (sin a) <= 1) by (apply Rabs_le; lra).
  nra.
Qed.



(** The memoised [data] arrays have one entry per instance. *)
Lemma mapM_length (A B : Type) (f : A -> Rand B) (l : list A) (g : Rng) :
  List.length (fst (mapM f l g)) = List.length l.
Proof.
  revert g. induction l as [| a l IH]; intros g; [reflexivity |].
  cbn [mapM]. unfold bind at 1. destruct (f a g) as [b g1].
  unfold bind at 1. specialize (IH g1).
  destruct (mapM f l g1) as [bs g2]. simpl in *. rewrite IH. reflexivity.
Qed.

Lemma data_lengths (g : Rng) :
  List.length (fst (Ornaments.ornamentsData g)) = Ornaments.ORNAMENT_COUNT /\
  List.length (fst (Ornaments.giftsData g)) = Ornaments.GIFT_COUNT.
Proof.
  unfold Ornaments.ornamentsData, Ornaments.giftsData.
  rewrite !mapM_length, !length_seq. split; reflexivity.
Qed.

(** *** The idle spin *)

(** C9: a frame of the foliage, ornament or gift population adds 0.002 to
    the rotation about the vertical axis when progress is below 0.5 and
    leaves it as it was otherwise; without a mounted mesh there is nothing
    to rotate. *)
Theorem idle_spin_stops_at_midpoint
  (data : list Ornaments.EntityData) (time progress : R)
  (m : Ornaments.InstancedMesh) (f : Foliage.Points) :
  (progress < 0.5 ->
     option_map Foliage.rotationY (Foliage.foliageFrame time progress (Some f))
       = Some (Foliage.rotationY f + 0.002) /\
     option_map Ornaments.rotationY
       (Ornaments.ornamentsFrame data time progress (Some m))
       = Some (Ornaments.rotationY m + 0.002) /\
     option_map Ornaments.rotationY
       (Ornaments.giftBoxesFrame data time progress (Some m))
       = Some (Ornaments.rotationY m + 0.002)) /\
  (0.5 <= progress ->
     option_map Foliage.rotationY (Foliage.foliageFrame time progress (Some f))
       = Some (Foliage.rotationY f) /\
     option_map Ornaments.rotationY
       (Ornaments.ornamentsFrame data time progress (Some m))
       = Some (Ornaments.rotationY m) /\
     option_map Ornaments.rotationY
       (Ornaments.giftBoxesFrame data time progress (Some m))
       = Some (Ornaments.rotationY m)) /\
  Foliage.foliageFrame time progress None = None /\
  Ornaments.ornamentsFrame data time progress None = None /\
  Ornaments.giftBoxesFrame data time progress None = None.
Proof.
  unfold Foliage.foliageFrame, Ornaments.ornamentsFrame,
    Ornaments.giftBoxesFrame. simpl.
  destruct (Rlt_dec progress 0.5) as [Hlt | Hge].
  - repeat split; try reflexivity; intros; lra.
  - repeat split; try reflexivity; intros; lra.
Qed.

Lemma idle_spin_stops_at_midpoint_witness :
  0.25 < 0.5 /\ 0.5 <= 0.75 /\
  option_map Foliage.rotationY
    (Foliage.foliageFrame 0 0.25 (Some (Foliage.mkPoints 0 0 1)))
    = Some (1 + 0.002) /\
  option_map Foliage.rotationY
    (Foliage.foliageFrame 0 0.75 (Some (Foliage.mkPoints 0 0 1)))
    = Some 1.
Proof.
  assert (Hlo : 0.25 < 0.5) by lra.
  assert (Hhi : 0.5 <= 0.75) by lra.
  pose (m := Ornaments.mkInstancedMesh [] false 0).
  pose (f := Foliage.mkPoints 0 0 1).
  destruct (idle_spin_stops_at_midpoint [] 0 0.25 m f) as (Hspin & _).
  destruct (idle_spin_stops_at_midpoint [] 0 0.75 m f) as (_ & Hstill & _).
  destruct (Hspin Hlo) as (H1 & _). destruct (Hstill Hhi) as (H2 & _).
  split; [exact Hlo |]. split; [exact Hhi |].
  split; [exact H1 | exact H2].
Defined.

(** *** The scatter generator *)

Lemma getScatterPosition_draws (i : nat) (g : Rng) :
  getScatterPosition i g =
    (let theta := peek g 0 * PI * 2 in
     let phi := acos (peek g 1 * 2 - 1) in
     let r := 8 + peek g 2 * SCATTER_RADIUS in
     mkVector3 (r * sin phi * cos theta) (r * sin phi * sin theta)
       (r * cos phi),
     mkRng (draws g) (cursor g + 3)).
Proof.
  unfold getScatterPosition, bind, random, ret, peek. simpl.
  rewrite Nat.add_0_r.
  replace (cursor g + 1)%nat with (S (cursor g)) by lia.
  replace (cursor g + 2)%nat with (S (S (cursor g))) by lia.
  replace (cursor g + 3)%nat with (S (S (S (cursor g)))) by lia.
  reflexivity.
Qed.

(** C10: the scatter position is a function of the next three draws only;
    two calls with any two indices return the same point when those draws
    agree, the same point and generator from the same generator, and the
    gift boxes' offset index [i + 1000] changes nothing. *)
Theorem scatter_position_ignores_index (i j : nat) (g1 g2 : Rng) :
  (forall k, (k < 3)%nat -> peek g1 k = peek g2 k) ->
  fst (getScatterPosition i g1) = fst (getScatterPosition j g2) /\
  getScatterPosition i g1 = getScatterPosition j g1 /\
  getScatterPosition (i + 1000) g1 = getScatterPosition i g1 /\
  Ornaments.scatterPos (fst (Ornaments.giftData i g1))
    = fst (getScatterPosition i g1) /\
  Ornaments.scatterPos (fst (Ornaments.giftData i g1))
    = Ornaments.scatterPos (fst (Ornaments.ornamentData i g1)).
Proof.
  intros Hdraws.
  assert (Hgift : Ornaments.scatterPos (fst (Ornaments.giftData i g1))
                  = fst (getScatterPosition (i + 1000) g1)).
  { unfold Ornaments.giftData. cbv zeta. unfold bind at 1.
    destruct (getScatterPosition (i + 1000) g1) as [sp g'].
    unfold bind, random, ret. simpl.
    destruct (Rgt_dec _ _); reflexivity. }
  assert (Horn : Ornaments.scatterPos (fst (Ornaments.ornamentData i g1))
                 = fst (getScatterPosition i g1)).
  { unfold Ornaments.ornamentData. cbv zeta. unfold bind at 1.
    destruct (getScatterPosition i g1) as [sp g'].
    unfold bind, random, ret. simpl.
    destruct (Rgt_dec _ _); reflexivity. }
  repeat split.
  - rewrite !getScatterPosition_draws. simpl.
    rewrite (Hdraws 0%nat), (Hdraws 1%nat), (Hdraws 2%nat) by lia.
    reflexivity.
  - exact Hgift.
  - rewrite Hgift, Horn. reflexivity.
Qed.

Lemma scatter_position_ignores_index_witness :
  (forall k, (k < 3)%nat ->
     peek (mkRng (fun _ => 0.5) 0) k = peek (mkRng (fun _ => 0.5) 7) k) /\
  fst (getScatterPosition 0 (mkRng (fun _ => 0.5) 0))
    = fst (getScatterPosition 1000 (mkRng (fun _ => 0.5) 7)).
Proof.
  assert (H : forall k, (k < 3)%nat ->
     peek (mkRng (fun _ => 0.5) 0) k = peek (mkRng (fun _ => 0.5) 7) k)
    by (intros k _; reflexivity).
  split; [exact H |].
  exact (proj1 (scatter_position_ignores_index 0 1000 _ _ H)).
Defined.

End PopulationFacts.

(** ** The photo upload *)

Module UploadFacts.

Import App.

Section Upload.

Variable File : Type.
Variable createObjectURL : File -> string.
Variable base36 : R -> string.

#[local] Abbreviation newPhoto := (newPhoto File createObjectURL base36).
#[local] Abbreviation newItems := (newItems File createObjectURL base36).
#[local] Abbreviation fillPlaceholders := (fillPlaceholders File createObjectURL base36).
#[local] Abbreviation appendRemaining := (appendRemaining File createObjectURL base36).
#[local] Abbreviation handlePhotoUpload := (handlePhotoUpload File createObjectURL base36).

Lemma newItems_advance (g : Rng) (k : nat) (files : list File) :
  newItems (advance g) k files = newItems g (S k) files.
Proof.
  revert k. induction files as [| f fs IH]; intros k; simpl; [reflexivity |].
  rewrite IH. f_equal. unfold peek, advance. simpl. f_equal. f_equal. lia.
Qed.

Lemma newItems_length (g : Rng) (k : nat) (files : list File) :
  List.length (newItems g k files) = List.length files.
Proof.
  revert k. induction files as [| f fs IH]; intros k; simpl; [| rewrite IH];
    reflexivity.
Qed.

Lemma skipn_nth_error (A : Type) (l : list A) (k : nat) (a : A) :
  nth_error l k = Some a -> skipn k l = a :: skipn (S k) l.
Proof.
  revert k. induction l as [| h t IH]; intros k H.
  - destruct k; discriminate.
  - destruct k as [| k]; simpl in *.
    + injection H as ->. reflexivity.
    + apply IH. exact H.
Qed.

Lemma assign_middle (done ps : list PhotoData) (p v : PhotoData) :
  assign (List.length done) v (done ++ p :: ps) = done ++ v :: ps.
Proof.
  induction done as [| h t IH]; simpl; [reflexivity |]. rewrite IH.
  reflexivity.
Qed.

(** The [while] loop appends the items of the remaining files. *)
Lemma appendRemaining_items (files : list File) (n : nat) :
  forall next k g, n = (List.length files - k)%nat ->
    fst (appendRemaining n files next k g)
      = next ++ newItems g 0 (skipn k files).
Proof.
  induction n as [| n IH]; intros next k g Hn; simpl.
  - rewrite skipn_all2 by lia. simpl. rewrite app_nil_r. reflexivity.
  - assert (Hk : (k < List.length files)%nat) by lia.
    apply Nat.ltb_lt in Hk as Hkb. rewrite Hkb.
    destruct (nth_error files k) as [f |] eqn:Hf.
    + rewrite (skipn_nth_error _ _ _ _ Hf). unfold bind, random.
      fold (advance g). rewrite IH by lia.
      rewrite newItems_advance, <- app_assoc. simpl.
      unfold peek. rewrite Nat.add_0_r. reflexivity.
    + apply nth_error_None in Hf. lia.
Qed.

Lemma random_run (g : Rng) : random g = (peek g 0, advance g).
Proof. unfold random, peek, advance. rewrite Nat.add_0_r. reflexivity. Qed.

(** The three ways one iteration of the [for] loop can go. *)
Lemma fillPlaceholders_exit (files : list File) (fuel i k : nat)
  (next : list PhotoData) (g : Rng) :
  (List.length next <= i)%nat \/ (List.length files <= k)%nat ->
  fillPlaceholders fuel i files next k g = (next, k, g).
Proof.
  intros H. destruct fuel as [| fuel]; simpl; [reflexivity |].
  assert (Hc : (i <? List.length next)%nat && (k <? List.length files)%nat
               = false).
  { apply andb_false_iff.
    destruct H; [left | right]; apply Nat.ltb_ge; assumption. }
  rewrite Hc. reflexivity.
Qed.

Lemma fillPlaceholders_fill (files : list File) (fuel i k : nat)
  (next : list PhotoData) (g : Rng) (p : PhotoData) (f : File) :
  nth_error next i = Some p -> nth_error files k = Some f ->
  truthy (isPlaceholder p) = true ->
  fillPlaceholders (S fuel) i files next k g
    = fillPlaceholders fuel (S i) files
        (assign i (newPhoto (peek g 0) f) next) (S k) (advance g).
Proof.
  intros Hp Hf Ht. simpl.
  assert (Hi : (i <? List.length next)%nat = true).
  { apply Nat.ltb_lt, nth_error_Some. congruence. }
  assert (Hk : (k <? List.length files)%nat = true).
  { apply Nat.ltb_lt, nth_error_Some. congruence. }
  rewrite Hi, Hk, Hp, Hf, Ht. simpl. unfold bind. rewrite random_run.
  reflexivity.
Qed.

Lemma fillPlaceholders_keep (files : list File) (fuel i k : nat)
  (next : list PhotoData) (g : Rng) (p : PhotoData) (f : File) :
  nth_error next i = Some p -> nth_error files k = Some f ->
  truthy (isPlaceholder p) = false ->
  fillPlaceholders (S fuel) i files next k g
    = fillPlaceholders fuel (S i) files next k g.
Proof.
  intros Hp Hf Ht. simpl.
  assert (Hi : (i <? List.length next)%nat = true).
  { apply Nat.ltb_lt, nth_error_Some. congruence. }
  assert (Hk : (k <? List.length files)%nat = true).
  { apply Nat.ltb_lt, nth_error_Some. congruence. }
  rewrite Hi, Hk, Hp, Hf, Ht. reflexivity.
Qed.

Lemma nth_error_middle (done ps : list PhotoData) (p : PhotoData) :
  nth_error (done ++ p :: ps) (List.length done) = Some p.
Proof.
  rewrite nth_error_app2, Nat.sub_diag by lia. reflexivity.
Qed.

Lemma snoc_app (A : Type) (l1 l2 : list A) (a : A) :
  l1 ++ a :: l2 = (l1 ++ [a]) ++ l2.
Proof. rewrite <- app_assoc. reflexivity. Qed.

Lemma snoc_length (A : Type) (l : list A) (a : A) :
  List.length (l ++ [a]) = S (List.length l).
Proof. rewrite length_app. simpl. lia. Qed.

(** The [for] loop followed by the [while] loop, started at any index. *)
Lemma loops_refine (files : list File) (rest : list PhotoData) :
  forall done k g fuel, (List.length rest <= fuel)%nat ->
    fst ((st <- fillPlaceholders fuel (List.length done) files
                  (done ++ rest) k ;;
          appendRemaining (List.length files - snd st) files (fst st)
            (snd st)) g)
      = done ++ fillThenAppend rest (newItems g 0 (skipn k files)).
Proof.
  induction rest as [| p ps IH]; intros done k g fuel Hfuel.
  - rewrite app_nil_r. unfold bind.
    rewrite fillPlaceholders_exit by (left; lia).
    cbn [fst snd fillThenAppend].
    apply appendRemaining_items. reflexivity.
  - destruct fuel as [| fuel]; [simpl in Hfuel; lia |].
    simpl in Hfuel.
    destruct (nth_error files k) as [f |] eqn:Hf.
    + rewrite (skipn_nth_error _ _ _ _ Hf).
      pose proof (nth_error_middle done ps p) as Hp.
      destruct (truthy (isPlaceholder p)) eqn:Ht.
      * unfold bind.
        rewrite (fillPlaceholders_fill _ _ _ _ _ _ _ _ Hp Hf Ht).
        rewrite assign_middle, (snoc_app _ done ps).
        rewrite <- (snoc_length _ done (newPhoto (peek g 0) f)).
        pose proof (IH (done ++ [newPhoto (peek g 0) f]) (S k)
                      (advance g) fuel ltac:(lia)) as H.
        unfold bind in H. rewrite H.
        rewrite newItems_advance, <- app_assoc.
        cbn [newItems fillThenAppend app]. rewrite Ht. reflexivity.
      * unfold bind.
        rewrite (fillPlaceholders_keep _ _ _ _ _ _ _ _ Hp Hf Ht).
        rewrite (snoc_app _ done ps), <- (snoc_length _ done p).
        pose proof (IH (done ++ [p]) k g fuel ltac:(lia)) as H.
        unfold bind in H. rewrite H.
        rewrite (skipn_nth_error _ _ _ _ Hf), <- app_assoc.
        cbn [newItems fillThenAppend app]. rewrite Ht. reflexivity.
    + apply nth_error_None in Hf. unfold bind.
      rewrite fillPlaceholders_exit by (right; lia).
      cbn [fst snd].
      replace (List.length files - k)%nat with 0%nat by lia.
      rewrite skipn_all2 by lia. reflexivity.
Qed.

(** *** The policy itself *)

Lemma fillThenAppend_nil_r (prev : list PhotoData) :
  fillThenAppend prev [] = prev.
Proof. destruct prev; reflexivity. Qed.

Lemma fillThenAppend_all_placeholders (prev items : list PhotoData) :
  Forall (fun p => truthy (isPlaceholder p) = true) prev ->
  fillThenAppend prev items = items ++ skipn (List.length items) prev.
Proof.
  intros Hall. revert items.
  induction Hall as [| p ps Hp _ IH]; intros items.
  - destruct items; simpl; [reflexivity |].
    rewrite app_nil_r. reflexivity.
  - destruct items as [| it its]; [reflexivity |].
    simpl. rewrite Hp, IH. reflexivity.
Qed.

Lemma fillThenAppend_length (prev items : list PhotoData) :
  List.length (fillThenAppend prev items)
    = (List.length prev
       + (List.length items
          - List.length
              (filter (fun p => truthy (isPlaceholder p)) prev)))%nat.
Proof.
  revert items. induction prev as [| p ps IH]; intros items.
  - simpl. lia.
  - destruct items as [| it its]; [simpl; lia |].
    cbn [fillThenAppend filter].
    destruct (truthy (isPlaceholder p)); cbn [List.length]; rewrite IH;
      cbn [List.length]; lia.
Qed.

Lemma newItems_fresh (g : Rng) (k : nat) (files : list File) :
  Forall (fun it => isPlaceholder it = Some false) (newItems g k files).
Proof.
  revert k. induction files as [| f fs IH]; intros k; simpl;
    constructor; [reflexivity | apply IH].
Qed.

Lemma DEFAULT_PHOTOS_placeholders :
  Forall (fun p => truthy (isPlaceholder p) = true) DEFAULT_PHOTOS.
Proof.
  unfold DEFAULT_PHOTOS. apply Forall_forall. intros p Hin.
  apply in_map_iff in Hin as (i & <- & _). reflexivity.
Qed.

Lemma DEFAULT_PHOTOS_nth (i : nat) :
  (i < 8)%nat -> nth_error DEFAULT_PHOTOS i = Some (placeholder i).
Proof.
  intros Hi. unfold DEFAULT_PHOTOS, MAX_PLACEHOLDERS.
  rewrite nth_error_map, nth_error_seq.
  apply Nat.ltb_lt in Hi. rewrite Hi. reflexivity.
Qed.

Lemma handlePhotoUpload_refines (files : list File) (prev : list PhotoData)
  (g : Rng) :
  fst (handlePhotoUpload (Some files) prev g)
    = fillThenAppend prev (newItems g 0 files).
Proof.
  unfold App.handlePhotoUpload.
  destruct files as [| f fs].
  - simpl. rewrite fillThenAppend_nil_r. reflexivity.
  - cbn [List.length Nat.ltb Nat.leb].
    exact (loops_refine (f :: fs) prev [] 0 g (List.length prev) (le_n _)).
Qed.

(** C5: the new value of [photos] is the previous one with the new items
    put on its placeholders in index order and the rest appended.  From the
    eight default placeholders, three files replace indices 0, 1 and 2 and
    leave five placeholders and length 8; ten files replace all eight and
    two more are appended, for length 10. *)
Theorem upload_fills_placeholders_then_appends
  (files : list File) (prev : list PhotoData) (g : Rng) :
  let items := newItems g 0 files in
  let next := fst (handlePhotoUpload (Some files) prev g) in
  let fromDefault := fst (handlePhotoUpload (Some files) DEFAULT_PHOTOS g) in
  next = fillThenAppend prev items /\
  List.length next
    = (List.length prev
       + (List.length files
          - List.length
              (filter (fun p => truthy (isPlaceholder p)) prev)))%nat /\
  Forall (fun it => isPlaceholder it = Some false) items /\
  List.length DEFAULT_PHOTOS = 8%nat /\
  fromDefault = items ++ skipn (List.length files) DEFAULT_PHOTOS /\
  (List.length files = 3%nat ->
     List.length fromDefault = 8%nat /\
     (forall i, (i < 3)%nat -> nth_error fromDefault i = nth_error items i) /\
     (forall i, (3 <= i < 8)%nat ->
        nth_error fromDefault i = Some (placeholder i))) /\
  (List.length files = 10%nat ->
     List.length fromDefault = 10%nat /\
     firstn 8 fromDefault = firstn 8 items /\
     skipn 8 fromDefault = skipn 8 items /\
     List.length (skipn 8 fromDefault) = 2%nat) /\
  fst (handlePhotoUpload None prev g) = prev /\
  fst (handlePhotoUpload (Some []) prev g) = prev.
Proof.
  intros items next fromDefault.
  assert (Hnext : next = fillThenAppend prev items)
    by apply handlePhotoUpload_refines.
  assert (Hitems : List.length items = List.length files)
    by apply newItems_length.
  assert (Hdef : fromDefault
                 = items ++ skipn (List.length files) DEFAULT_PHOTOS).
  { subst fromDefault. rewrite handlePhotoUpload_refines.
    rewrite fillThenAppend_all_placeholders
      by apply DEFAULT_PHOTOS_placeholders.
    fold items. rewrite Hitems. reflexivity. }
  assert (Hlen8 : List.length DEFAULT_PHOTOS = 8%nat) by reflexivity.
  split; [exact Hnext |].
  split; [rewrite Hnext, fillThenAppend_length, Hitems; reflexivity |].
  split; [apply newItems_fresh |].
  split; [exact Hlen8 |].
  split; [exact Hdef |].
  split; [| split; [| split; reflexivity]].
  - intros H3. split; [| split].
    + rewrite Hdef, length_app, length_skipn, Hitems, Hlen8. lia.
    + intros i Hi. rewrite Hdef, nth_error_app1 by lia. reflexivity.
    + intros i Hi. rewrite Hdef, nth_error_app2 by lia.
      rewrite nth_error_skipn, Hitems, H3.
      replace (3 + (i - 3))%nat with i by lia.
      apply DEFAULT_PHOTOS_nth. lia.
  - intros H10.
    assert (Hall : fromDefault = items).
    { rewrite Hdef, skipn_all2 by (rewrite Hlen8; lia). apply app_nil_r. }
    rewrite Hall. split; [lia |]. split; [reflexivity |].
    split; [reflexivity |]. rewrite length_skipn. lia.
Qed.

End Upload.

(** Three files, then ten, uploaded to the default photos. *)
Lemma upload_fills_placeholders_then_appends_witness :
  let upload := handlePhotoUpload nat natToString (fun _ => "id"%string) in
  let g := mkRng (fun _ => 0) 0 in
  List.length [1; 2; 3]%nat = 3%nat /\
  List.length (seq 0 10) = 10%nat /\
  List.length (fst (upload (Some [1; 2; 3]%nat) DEFAULT_PHOTOS g)) = 8%nat /\
  List.length (fst (upload (Some (seq 0 10)) DEFAULT_PHOTOS g)) = 10%nat.
Proof.
  intros upload g.
  assert (H3 : List.length [1; 2; 3]%nat = 3%nat) by reflexivity.
  assert (H10 : List.length (seq 0 10) = 10%nat) by reflexivity.
  pose proof (upload_fills_placeholders_then_appends nat natToString
                (fun _ => "id"%string) [1; 2; 3]%nat DEFAULT_PHOTOS g) as T3.
  pose proof (upload_fills_placeholders_then_appends nat natToString
                (fun _ => "id"%string) (seq 0 10) DEFAULT_PHOTOS g) as T10.
  cbv zeta in T3, T10.
  destruct T3 as (_ & _ & _ & _ & _ & T3 & _).
  destruct T10 as (_ & _ & _ & _ & _ & _ & T10 & _).
  split; [exact H3 |]. split; [exact H10 |].
  split; [exact (proj1 (T3 H3)) | exact (proj1 (T10 H10))].
Defined.

End UploadFacts.

(** ** Gestures *)

Module GestureFacts.

Import App GestureController.

(** C7: a SCATTER command while the state is SCATTERED, or GATHER while
    TREE, makes no [setAppState] call and leaves the state as it is, and
    the state stays unchanged whatever state the handler's closure saw;
    applying SCATTER twice is the same as applying it once and ends in
    SCATTERED, likewise GATHER and TREE. *)
Theorem applyGesture_idempotent (s seen : AppState) (c : Command) :
  handleGesture SCATTERED SCATTER = None /\
  handleGesture TREE GATHER = None /\
  applyGesture SCATTER SCATTERED = SCATTERED /\
  applyGesture GATHER TREE = TREE /\
  setAppState (handleGesture seen SCATTER) SCATTERED = SCATTERED /\
  setAppState (handleGesture seen GATHER) TREE = TREE /\
  applyGesture SCATTER s = SCATTERED /\
  applyGesture GATHER s = TREE /\
  applyGesture SCATTER (applyGesture SCATTER s) = applyGesture SCATTER s /\
  applyGesture c (applyGesture c s) = applyGesture c s.
Proof.
  destruct s, seen, c; repeat split.
Qed.

Lemma commandOf_cases (name : string) :
  (name = "Open_Palm"%string /\ commandOf name = [SCATTER]) \/
  (name = "Closed_Fist"%string /\ commandOf name = [GATHER]) \/
  (name <> "Open_Palm"%string /\ name <> "Closed_Fist"%string /\
   commandOf name = []).
Proof.
  unfold commandOf.
  destruct (String.eqb_spec name "Open_Palm") as [-> | Hopen];
    [left; split; reflexivity |].
  destruct (String.eqb_spec name "Closed_Fist") as [-> | Hfist];
    [right; left; split; reflexivity |].
  right; right. repeat split; assumption.
Qed.

Lemma classifyFrame_top (t : R) (lm : list nat) (g : Category)
  (hand : list Category) (others : list (list Category)) (c : Controller) :
  emitted (classifyFrame t (mkResult lm ((g :: hand) :: others)) c)
    = if Rgt_dec (score g) 0.5 then commandOf (categoryName g) else [].
Proof.
  unfold classifyFrame. simpl. destruct (Rgt_dec (score g) 0.5); reflexivity.
Qed.

Lemma classifyFrame_time (t : R) (r : GestureRecognizerResult)
  (c : Controller) :
  lastVideoTimeRef (after (classifyFrame t r c)) = t.
Proof.
  unfold classifyFrame. destruct (gestures r) as [| [| g hand] others];
    simpl; try reflexivity.
  destruct (Rgt_dec (score g) 0.5); reflexivity.
Qed.

(** What [predictWebcam] emits is what the classified block emits, and
    only when the refs are set and the timestamp is new. *)
Lemma predictWebcam_emitted (seen : bool) (t : R)
  (r : GestureRecognizerResult) (c : Controller) :
  emitted (predictWebcam seen t r c)
    = if negb (videoRef c) || negb (canvasRef c) || negb (recognizerRef c)
      then []
      else if Req_dec_T t (lastVideoTimeRef c) then []
      else emitted (classifyFrame t r c).
Proof.
  unfold predictWebcam.
  destruct (negb (videoRef c) || negb (canvasRef c) || negb (recognizerRef c));
    [reflexivity |].
  destruct (Req_dec_T t (lastVideoTimeRef c)).
  - simpl. destruct seen; reflexivity.
  - destruct (threw (classifyFrame t r c)); [reflexivity |].
    destruct seen; reflexivity.
Qed.

Lemma predictWebcam_time (seen : bool) (t : R)
  (r : GestureRecognizerResult) (c : Controller) :
  videoRef c = true -> canvasRef c = true -> recognizerRef c = true ->
  lastVideoTimeRef (after (predictWebcam seen t r c)) = t /\
  videoRef (after (predictWebcam seen t r c)) = true /\
  canvasRef (after (predictWebcam seen t r c)) = true /\
  recognizerRef (after (predictWebcam seen t r c)) = true.
Proof.
  intros Hv Hc Hr. unfold predictWebcam. rewrite Hv, Hc, Hr. simpl.
  destruct (Req_dec_T t (lastVideoTimeRef c)) as [-> | Hnew].
  - simpl. destruct seen; simpl; auto.
  - assert (Hrefs : videoRef (after (classifyFrame t r c)) = true /\
                    canvasRef (after (classifyFrame t r c)) = true /\
                    recognizerRef (after (classifyFrame t r c)) = true).
    { unfold classifyFrame.
      destruct (gestures r) as [| [| g hand] others]; simpl; auto.
      destruct (Rgt_dec (score g) 0.5); simpl; auto. }
    pose proof (classifyFrame_time t r c) as Ht.
    destruct (threw (classifyFrame t r c)); [tauto |].
    destruct seen; simpl; tauto.
Qed.

(** A full account of one call on a frame whose top-ranked category is
    Open_Palm above the threshold, in a running loop. *)
Lemma predictWebcam_open_palm (t : R) (lm : list nat) (g : Category)
  (hand : list Category) (others : list (list Category)) (c : Controller) :
  videoRef c = true -> canvasRef c = true -> recognizerRef c = true ->
  0.5 < score g -> categoryName g = "Open_Palm"%string ->
  predictWebcam true t (mkResult lm ((g :: hand) :: others)) c
    = if Req_dec_T t (lastVideoTimeRef c)
      then mkOutcome (setFrameRequested true c) [] false
      else mkOutcome
             (setFrameRequested true
                (setDetectedGesture "Open_Palm" (setLastVideoTime t c)))
             [SCATTER] false.
Proof.
  intros Hv Hc Hr Hgt Hname. unfold predictWebcam. rewrite Hv, Hc, Hr.
  simpl. destruct (Req_dec_T t (lastVideoTimeRef c)); [reflexivity |].
  unfold classifyFrame. simpl.
  destruct (Rgt_dec (score g) 0.5) as [_ | Hn]; [| lra].
  rewrite Hname. reflexivity.
Qed.

Lemma run_two_open_palms (t t' : R) (lm : list nat) (g : Category)
  (hand : list Category) (others : list (list Category)) (c : Controller) :
  videoRef c = true -> canvasRef c = true -> recognizerRef c = true ->
  t <> lastVideoTimeRef c ->
  0.5 < score g -> categoryName g = "Open_Palm"%string ->
  let r := mkResult lm ((g :: hand) :: others) in
  snd (run true [(t, r); (t', r)] c)
    = if Req_dec_T t' t then [SCATTER] else [SCATTER; SCATTER].
Proof.
  intros Hv Hc Hr Hnew Hgt Hname r. subst r. unfold run.
  rewrite predictWebcam_open_palm by assumption.
  cbn [lastVideoTimeRef setFrameRequested].
  destruct (Req_dec_T t (lastVideoTimeRef c)); [contradiction |].
  cbn [threw after emitted frameRequested setFrameRequested orb negb].
  rewrite predictWebcam_open_palm by assumption.
  cbn [lastVideoTimeRef setFrameRequested setDetectedGesture
       setLastVideoTime].
  destruct (Req_dec_T t' t); reflexivity.
Qed.

Lemma predictWebcam_open_palm_any (t : R) (r : GestureRecognizerResult)
  (c : Controller) :
  videoRef c = true -> canvasRef c = true -> recognizerRef c = true ->
  openPalm r ->
  predictWebcam true t r c
    = if Req_dec_T t (lastVideoTimeRef c)
      then mkOutcome (setFrameRequested true c) [] false
      else mkOutcome
             (setFrameRequested true
                (setDetectedGesture "Open_Palm" (setLastVideoTime t c)))
             [SCATTER] false.
Proof.
  intros Hv Hc Hr Hopen. destruct r as [lm gs]. unfold openPalm in Hopen.
  simpl in Hopen. destruct gs as [| [| g hand] others]; try contradiction.
  destruct Hopen as [Hgt Hname].
  apply predictWebcam_open_palm; assumption.
Qed.

(** Over a whole run of open-hand frames the loop emits one SCATTER for
    each frame whose timestamp differs from the one before it. *)
Lemma run_open_palms (frames : list (R * GestureRecognizerResult)) :
  forall c : Controller,
    videoRef c = true -> canvasRef c = true -> recognizerRef c = true ->
    Forall (fun f => openPalm (snd f)) frames ->
    snd (run true frames c)
      = repeat SCATTER (freshFrames (lastVideoTimeRef c) (map fst frames)).
Proof.
  induction frames as [| [t r] rest IH]; intros c Hv Hc Hr Hall;
    [reflexivity |].
  inversion Hall as [| f fs Hopen Hrest]; subst.
  cbn [run map fst freshFrames snd] in *.
  rewrite predictWebcam_open_palm_any by assumption.
  cbn [lastVideoTimeRef setFrameRequested].
  destruct (Req_dec_T t (lastVideoTimeRef c)) as [Heq | Hne].
  - cbn [threw after emitted frameRequested setFrameRequested orb negb].
    specialize (IH (setFrameRequested true (setFrameRequested false c))
                  Hv Hc Hr Hrest).
    cbn [lastVideoTimeRef setFrameRequested] in IH.
    destruct (run true rest
                (setFrameRequested true (setFrameRequested false c)))
      as [c' cmds].
    cbn [snd] in *. rewrite IH, Heq. reflexivity.
  - cbn [threw after emitted frameRequested setFrameRequested orb negb].
    specialize (IH (setFrameRequested true
                      (setDetectedGesture "Open_Palm"
                         (setLastVideoTime t (setFrameRequested false c))))
                  Hv Hc Hr Hrest).
    cbn [lastVideoTimeRef setFrameRequested setDetectedGesture
         setLastVideoTime] in IH.
    destruct (run true rest
                (setFrameRequested true
                   (setDetectedGesture "Open_Palm"
                      (setLastVideoTime t (setFrameRequested false c)))))
      as [c' cmds].
    cbn [snd] in *. rewrite IH. reflexivity.
Qed.

(** C4: with [g] the top-ranked category of the classifier's answer, no
    command is emitted when its score does not exceed 0.5, nor when its
    label is neither Open_Palm nor Closed_Fist; GATHER is emitted only for
    Closed_Fist above 0.5; an answer without a category emits nothing; a
    frame whose timestamp equals the last processed one emits nothing and
    changes no state; a new timestamp with Open_Palm above 0.5 emits
    exactly one SCATTER, and processing that timestamp again emits
    nothing; a running loop fed open-hand frames emits one SCATTER per
    frame whose timestamp differs from the one before it. *)
Theorem gesture_command_mapping (seen : bool) (t : R) (lm : list nat)
  (g : Category) (hand : list Category) (others : list (list Category))
  (c : Controller) :
  let r := mkResult lm ((g :: hand) :: others) in
  let o := predictWebcam seen t r c in
  (score g <= 0.5 -> emitted o = []) /\
  (categoryName g <> "Open_Palm"%string ->
   categoryName g <> "Closed_Fist"%string -> emitted o = []) /\
  (In GATHER (emitted o) ->
     categoryName g = "Closed_Fist"%string /\ 0.5 < score g) /\
  (In SCATTER (emitted o) ->
     categoryName g = "Open_Palm"%string /\ 0.5 < score g) /\
  (emitted (predictWebcam seen t (mkResult lm []) c) = [] /\
   emitted (predictWebcam seen t (mkResult lm ([] :: others)) c) = []) /\
  (t = lastVideoTimeRef c ->
     emitted o = [] /\ threw o = false /\
     lastVideoTimeRef (after o) = lastVideoTimeRef c /\
     detectedGesture (after o) = detectedGesture c) /\
  (videoRef c = true -> canvasRef c = true -> recognizerRef c = true ->
   t <> lastVideoTimeRef c ->
   0.5 < score g -> categoryName g = "Open_Palm"%string ->
     emitted o = [SCATTER] /\
     lastVideoTimeRef (after o) = t /\
     (forall seen' r', emitted (predictWebcam seen' t r' (after o)) = []) /\
     (seen = true ->
        snd (run seen [(t, r); (t, r)] c) = [SCATTER] /\
        forall t', t' <> t ->
          snd (run seen [(t, r); (t', r)] c) = [SCATTER; SCATTER])) /\
  (forall frames,
     videoRef c = true -> canvasRef c = true -> recognizerRef c = true ->
     Forall (fun f => openPalm (snd f)) frames ->
     snd (run true frames c)
       = repeat SCATTER (freshFrames (lastVideoTimeRef c) (map fst frames))).
Proof.
  intros r o.
  assert (Ho : emitted o
    = if negb (videoRef c) || negb (canvasRef c) || negb (recognizerRef c)
      then []
      else if Req_dec_T t (lastVideoTimeRef c) then []
      else if Rgt_dec (score g) 0.5 then commandOf (categoryName g) else []).
  { subst o r. rewrite predictWebcam_emitted, classifyFrame_top.
    reflexivity. }
  assert (Hsub : emitted o = [] \/
                 (0.5 < score g /\ emitted o = commandOf (categoryName g))).
  { rewrite Ho.
    destruct (negb (videoRef c) || negb (canvasRef c)
              || negb (recognizerRef c)); [left; reflexivity |].
    destruct (Req_dec_T t (lastVideoTimeRef c)); [left; reflexivity |].
    destruct (Rgt_dec (score g) 0.5) as [Hgt | Hle];
      [right; split; [exact Hgt | reflexivity] | left; reflexivity]. }
  split; [| split; [| split; [| split; [| split; [| split; [| split]]]]]].
  - intros Hlow. destruct Hsub as [He | [Hgt _]]; [exact He | lra].
  - intros Hopen Hfist. destruct Hsub as [He | [_ He]]; [exact He |].
    rewrite He.
    destruct (commandOf_cases (categoryName g))
      as [[Hn _] | [[Hn _] | (_ & _ & Hc)]];
      [contradiction | contradiction | exact Hc].
  - intros Hin. destruct Hsub as [He | [Hgt He]];
      [rewrite He in Hin; destruct Hin |].
    rewrite He in Hin.
    destruct (commandOf_cases (categoryName g))
      as [[_ Hc] | [[Hn _] | (_ & _ & Hc)]].
    + rewrite Hc in Hin. destruct Hin as [Hin | []]. discriminate Hin.
    + split; assumption.
    + rewrite Hc in Hin. destruct Hin.
  - intros Hin. destruct Hsub as [He | [Hgt He]];
      [rewrite He in Hin; destruct Hin |].
    rewrite He in Hin.
    destruct (commandOf_cases (categoryName g))
      as [[Hn _] | [[_ Hc] | (_ & _ & Hc)]].
    + split; assumption.
    + rewrite Hc in Hin. destruct Hin as [Hin | []]. discriminate Hin.
    + rewrite Hc in Hin. destruct Hin.
  - rewrite !predictWebcam_emitted. unfold classifyFrame. simpl.
    split;
      destruct (negb (videoRef c) || negb (canvasRef c)
                || negb (recognizerRef c));
      try reflexivity;
      destruct (Req_dec_T t (lastVideoTimeRef c)); reflexivity.
  - intros Hsame. subst o. unfold predictWebcam.
    destruct (negb (videoRef c) || negb (canvasRef c)
              || negb (recognizerRef c)); [simpl; auto |].
    destruct (Req_dec_T t (lastVideoTimeRef c)) as [_ | Hne];
      [| contradiction].
    simpl. destruct seen; simpl; auto.
  - intros Hv Hc Hr Hnew Hgt Hname.
    assert (Hone : emitted o = [SCATTER]).
    { rewrite Ho, Hv, Hc, Hr. simpl.
      destruct (Req_dec_T t (lastVideoTimeRef c)); [contradiction |].
      destruct (Rgt_dec (score g) 0.5) as [_ | Hn]; [| lra].
      rewrite Hname. reflexivity. }
    destruct (predictWebcam_time seen t r c Hv Hc Hr)
      as (Htime & Hv' & Hc' & Hr').
    fold o in Htime, Hv', Hc', Hr'.
    assert (Hagain : forall seen' r',
              emitted (predictWebcam seen' t r' (after o)) = []).
    { intros seen' r'. rewrite predictWebcam_emitted, Hv', Hc', Hr', Htime.
      simpl. destruct (Req_dec_T t t) as [_ | Hne];
        [reflexivity | contradiction]. }
    split; [exact Hone |]. split; [exact Htime |]. split; [exact Hagain |].
    intros ->. fold r. split.
    + pose proof (run_two_open_palms t t lm g hand others c
                    Hv Hc Hr Hnew Hgt Hname) as H.
      cbv zeta in H. fold r in H. rewrite H.
      destruct (Req_dec_T t t); [reflexivity | contradiction].
    + intros t' Hdiff.
      pose proof (run_two_open_palms t t' lm g hand others c
                    Hv Hc Hr Hnew Hgt Hname) as H.
      cbv zeta in H. fold r in H. rewrite H.
      destruct (Req_dec_T t' t); [contradiction | reflexivity].
  - intros frames Hv Hc Hr Hall. apply run_open_palms; assumption.
Qed.

Lemma gesture_command_mapping_witness :
  let c := mkController true true true true (-1) true false "None" false in
  let palm := mkCategory "Open_Palm" 0.8 in
  let weak := mkCategory "Open_Palm" 0.4 in
  0.4 <= 0.5 /\ 0.5 < 0.8 /\ 0 <> -1 /\
  emitted (predictWebcam true 0 (mkResult [] [[weak]]) c) = [] /\
  emitted (predictWebcam true 0 (mkResult [] [[palm]]) c) = [SCATTER].
Proof.
  intros c palm weak.
  assert (Hweak : 0.4 <= 0.5) by lra.
  assert (Hpalm : 0.5 < 0.8) by lra.
  assert (Hnew : 0 <> -1) by lra.
  pose proof (gesture_command_mapping true 0 [] weak [] [] c) as Tw.
  pose proof (gesture_command_mapping true 0 [] palm [] [] c) as Tp.
  cbv zeta in Tw, Tp.
  destruct Tw as (Tw & _).
  destruct Tp as (_ & _ & _ & _ & _ & _ & Tp & _).
  split; [exact Hweak |]. split; [exact Hpalm |]. split; [exact Hnew |].
  split; [exact (Tw Hweak) |].
  exact (proj1 (Tp eq_refl eq_refl eq_refl Hnew Hpalm eq_refl)).
Defined.

(** *** Failures of the gesture subsystem *)

Import Scene.

Lemma predictWebcam_without_model (seen : bool) (t : R)
  (r : GestureRecognizerResult) (c : Controller) :
  recognizerRef c = false -> predictWebcam seen t r c = mkOutcome c [] false.
Proof.
  intros Hr. unfold predictWebcam. rewrite Hr.
  rewrite !orb_true_r. reflexivity.
Qed.

(** C8: the end of a failed model load, and a click on the camera button
    answered by a denial, forward no command and leave [appState] and the
    progress as they were; a denied [startCamera] changes nothing at all;
    as long as no model is loaded no event but the toggle changes
    [appState]; and in every state of the gesture controller a click on
    the toggle flips [appState] and touches nothing else. *)
Theorem gesture_failures_leave_morph_untouched (w : World)
  (o : LoadOutcome) (e : Event) :
  (o <> Loaded ->
     snd (step (LoadEnds o) w) = [] /\
     appState (fst (step (LoadEnds o) w)) = appState w /\
     smoothProgress (fst (step (LoadEnds o) w)) = smoothProgress w /\
     recognizerRef (controller (fst (step (LoadEnds o) w)))
       = recognizerRef (controller w) /\
     loading (controller (fst (step (LoadEnds o) w))) = false) /\
  (snd (step (CameraButton Denied) w) = [] /\
   appState (fst (step (CameraButton Denied) w)) = appState w /\
   smoothProgress (fst (step (CameraButton Denied) w)) = smoothProgress w) /\
  startCamera Denied (controller w) = (controller w, false) /\
  (recognizerRef (controller w) = false -> e <> ToggleClicked ->
     snd (step e w) = [] /\ appState (fst (step e w)) = appState w) /\
  step ToggleClicked w
    = (mkWorld (toggleState (appState w)) (smoothProgress w) (controller w)
         (callback w), []).
Proof.
  split; [| split; [| split; [| split]]].
  - intros Hfail. destruct o; [| | contradiction]; simpl; auto.
  - simpl. destruct (loading (controller w)); [auto |].
    destruct (enabled (controller w)); [auto |].
    unfold startCamera.
    destruct (negb (recognizerRef (controller w))); simpl; auto.
  - unfold startCamera.
    destruct (negb (recognizerRef (controller w))); reflexivity.
  - intros Hnone Hev.
    destruct e as [| | | o' | p | t r | t r]; simpl.
    + contradiction.
    + split; reflexivity.
    + rewrite Hnone. split; reflexivity.
    + split; reflexivity.
    + destruct (loading (controller w)); [split; reflexivity |].
      destruct (enabled (controller w)); [split; reflexivity |].
      unfold startCamera. rewrite Hnone. split; reflexivity.
    + destruct (callback w) as [cl |]; [| split; reflexivity].
      unfold predict. rewrite predictWebcam_without_model by exact Hnone.
      split; reflexivity.
    + destruct (callback w) as [cl |]; [| split; reflexivity].
      destruct (frameRequested (controller w)); [| split; reflexivity].
      unfold predict. rewrite predictWebcam_without_model by exact Hnone.
      split; reflexivity.
  - reflexivity.
Qed.

Lemma gesture_failures_leave_morph_untouched_witness :
  let w := mkWorld SCATTERED 1 initial None in
  RecognizerFailed <> Loaded /\
  MetadataLoaded 0 (mkResult [] []) <> ToggleClicked /\
  appState (fst (step (LoadEnds RecognizerFailed) w)) = SCATTERED /\
  appState (fst (step (MetadataLoaded 0 (mkResult [] [])) w)) = SCATTERED.
Proof.
  intros w.
  assert (Hfail : RecognizerFailed <> Loaded) by discriminate.
  assert (Hev : MetadataLoaded 0 (mkResult [] []) <> ToggleClicked)
    by discriminate.
  destruct (gesture_failures_leave_morph_untouched w RecognizerFailed
              (MetadataLoaded 0 (mkResult [] [])))
    as (Hload & _ & _ & Hnone & _).
  split; [exact Hfail |]. split; [exact Hev |].
  split; [exact (proj1 (proj2 (Hload Hfail))) |].
  exact (proj2 (Hnone eq_refl Hev)).
Defined.

End GestureFacts.

(** * Further properties *)

Module MoreGeneratorFacts.

(** *** The scatter shell *)

Lemma sphere_norm (r phi theta : R) :
  (r * sin phi * cos theta) * (r * sin phi * cos theta)
  + (r * sin phi * sin theta) * (r * sin phi * sin theta)
  + (r * cos phi) * (r * cos phi) = r * r.
Proof.
  pose proof (sin2_cos2 phi) as Hp. pose proof (sin2_cos2 theta) as Ht.
  unfold Rsqr in Hp, Ht.
  replace (r * sin phi * cos theta * (r * sin phi * cos theta)
           + r * sin phi * sin theta * (r * sin phi * sin theta)
           + r * cos phi * (r * cos phi))
    with (r * r * ((sin phi * sin phi)
                   * (sin theta * sin theta + cos theta * cos theta)
                   + cos phi * cos phi)) by ring.
  rewrite Ht, Rmult_1_r, Hp. ring.
Qed.

(** X1: with the third draw in [[0,1)], the scatter position is at
    distance [8 + 15 * u3] from the origin, hence in the shell between
    radius 8 and 23, and the call consumes exactly three draws. *)
Theorem scatter_position_in_shell (i : nat) (g : Rng) :
  0 <= peek g 2 < 1 ->
  let v := fst (getScatterPosition i g) in
  let g' := snd (getScatterPosition i g) in
  x v * x v + y v * y v + z v * z v
    = (8 + peek g 2 * 15) * (8 + peek g 2 * 15) /\
  8 * 8 <= x v * x v + y v * y v + z v * z v < 23 * 23 /\
  draws g' = draws g /\ cursor g' = (cursor g + 3)%nat.
Proof.
  intros Hu v g'. subst v g'.
  rewrite PopulationFacts.getScatterPosition_draws. cbv zeta. simpl.
  rewrite sphere_norm. unfold SCATTER_RADIUS.
  repeat split; nra.
Qed.

Lemma scatter_position_in_shell_witness :
  let g := mkRng (fun _ => 0.5) 0 in
  let v := fst (getScatterPosition 0 g) in
  0 <= peek g 2 < 1 /\
  8 * 8 <= x v * x v + y v * y v + z v * z v < 23 * 23.
Proof.
  intros g v.
  assert (H : 0 <= peek g 2 < 1) by (unfold peek; simpl; lra).
  split; [exact H |].
  exact (proj1 (proj2 (scatter_position_in_shell 0 g H))).
Defined.

(** *** The tree spiral *)

Lemma treeY_lt (i j total : nat) :
  (1 <= total)%nat -> (i < j)%nat -> treeY i total < treeY j total.
Proof.
  intros Ht Hij. unfold treeY, TREE_HEIGHT.
  assert (Hpos : 0 < INR total) by (apply lt_0_INR; lia).
  apply lt_INR in Hij.
  assert (INR i / INR total < INR j / INR total).
  { unfold Rdiv. apply Rmult_lt_compat_r; [apply Rinv_0_lt_compat, Hpos |].
    exact Hij. }
  lra.
Qed.

(** X2: along the tree spiral the height strictly increases and the
    radius strictly decreases with the index, consecutive indices are
    [12 / total] apart in height, and for indices below the total the
    height stays in [[-6, 6)] and the radius in [(0, 6]]. *)
Theorem tree_height_and_radius_monotone (i j total : nat) :
  (1 <= total)%nat -> (i < j)%nat ->
  y (getTreePosition i total) < y (getTreePosition j total) /\
  treeRadiusAt (treeY j total) < treeRadiusAt (treeY i total) /\
  y (getTreePosition (S i) total) - y (getTreePosition i total)
    = 12 / INR total /\
  ((j < total)%nat ->
     -6 <= y (getTreePosition i total) /\
     y (getTreePosition j total) < 6 /\
     0 < treeRadiusAt (treeY j total) /\
     treeRadiusAt (treeY i total) <= 6).
Proof.
  intros Ht Hij.
  assert (Hpos : 0 < INR total) by (apply lt_0_INR; lia).
  pose proof (treeY_lt i j total Ht Hij) as Hlt.
  unfold getTreePosition. cbv zeta. simpl.
  split; [exact Hlt |].
  split; [unfold treeRadiusAt, TREE_HEIGHT, TREE_RADIUS; lra |].
  split.
  - unfold treeY, TREE_HEIGHT. rewrite S_INR. field. lra.
  - intros Hj.
    assert (H0 : -6 <= treeY i total).
    { unfold treeY, TREE_HEIGHT.
      assert (0 <= INR i / INR total).
      { apply Rmult_le_pos; [apply pos_INR |].
        left. apply Rinv_0_lt_compat, Hpos. }
      lra. }
    assert (H1 : treeY j total < 6).
    { unfold treeY, TREE_HEIGHT. apply lt_INR in Hj.
      assert (INR j / INR total < 1).
      { apply Rmult_lt_reg_r with (INR total); [exact Hpos |].
        unfold Rdiv. rewrite Rmult_assoc, Rinv_l by lra. lra. }
      lra. }
    unfold treeRadiusAt, TREE_HEIGHT, TREE_RADIUS.
    repeat split; lra.
Qed.

Lemma tree_height_and_radius_monotone_witness :
  (1 <= 180)%nat /\ (0 < 1)%nat /\ (1 < 180)%nat /\
  y (getTreePosition 0 180) < y (getTreePosition 1 180) /\
  y (getTreePosition 1 180) < 6.
Proof.
  assert (Ht : (1 <= 180)%nat) by lia.
  assert (Hij : (0 < 1)%nat) by lia.
  assert (Hj : (1 < 180)%nat) by lia.
  destruct (tree_height_and_radius_monotone 0 1 180 Ht Hij)
    as (H1 & _ & _ & H2).
  split; [exact Ht |]. split; [exact Hij |]. split; [exact Hj |].
  split; [exact H1 | exact (proj1 (proj2 (H2 Hj)))].
Defined.

(** *** The gallery *)

Lemma circle_point_inj (a b : R) :
  0 <= a < 2 * PI -> 0 <= b < 2 * PI ->
  cos a = cos b -> sin a = sin b -> a = b.
Proof.
  assert (Hord : forall a b, 0 <= a < 2 * PI -> 0 <= b < 2 * PI -> a <= b ->
                 cos a = cos b -> sin a = sin b -> a = b).
  { clear a b. intros a b Ha Hb Hab Hc Hs.
    assert (Hsd : sin (b - a) = 0).
    { rewrite sin_minus, Hc, Hs. ring. }
    assert (Hcd : cos (b - a) = 1).
    { rewrite cos_minus, Hc, Hs.
      pose proof (sin2_cos2 b) as H. unfold Rsqr in H. lra. }
    destruct (sin_eq_O_2PI_0 (b - a)) as [H | [H | H]]; try lra.
    rewrite H, cos_PI in Hcd. lra. }
  intros Ha Hb Hc Hs.
  destruct (Rle_dec a b) as [Hab | Hba].
  - apply Hord; assumption.
  - symmetry. apply Hord; auto; lra.
Qed.

Lemma gallery_slot_in_range (i total : nat) :
  (i < total)%nat -> (positionInRing i < Nat.min total 8)%nat.
Proof.
  intros Hi. unfold positionInRing.
  pose proof (Nat.mod_upper_bound i 8 ltac:(lia)) as Hm.
  destruct (Nat.le_gt_cases 8 total) as [Hbig | Hsmall].
  - rewrite Nat.min_r by lia. exact Hm.
  - rewrite Nat.min_l by lia. rewrite Nat.mod_small by lia. exact Hi.
Qed.

Lemma gallery_angle_range (s total : nat) :
  (s < Nat.min total 8)%nat ->
  0 <= INR s * angleStep total < 2 * PI.
Proof.
  intros Hs. unfold angleStep.
  assert (Hm : 0 < INR (Nat.min total 8)) by (apply lt_0_INR; lia).
  apply lt_INR in Hs. pose proof (pos_INR s) as H0. pose proof PI_RGT_0.
  replace (INR s * (PI * 2 / INR (Nat.min total 8)))
    with ((INR s / INR (Nat.min total 8)) * (2 * PI)) by (field; lra).
  assert (0 <= INR s / INR (Nat.min total 8) < 1).
  { split.
    - apply Rmult_le_pos; [exact H0 | left; apply Rinv_0_lt_compat, Hm].
    - apply Rmult_lt_reg_r with (INR (Nat.min total 8)); [exact Hm |].
      unfold Rdiv. rewrite Rmult_assoc, Rinv_l by lra. lra. }
  nra.
Qed.

(** X3: two different indices below the total never get the same gallery
    position. *)
Theorem gallery_positions_distinct
  (lookAt : Vector3 -> Vector3 -> Euler) (i j total : nat) :
  (i < total)%nat -> (j < total)%nat -> i <> j ->
  pos (getGalleryPosition lookAt i total)
    <> pos (getGalleryPosition lookAt j total).
Proof.
  intros Hi Hj Hne Heq.
  unfold getGalleryPosition in Heq. cbv zeta in Heq. simpl in Heq.
  injection Heq as Hx Hy Hz.
  assert (Hring : ringIndex i = ringIndex j).
  { unfold ringY in Hy. apply INR_eq. lra. }
  pose proof (gallery_slot_in_range i total Hi) as Hsi.
  pose proof (gallery_slot_in_range j total Hj) as Hsj.
  pose proof (gallery_angle_range _ _ Hsi) as Hai.
  pose proof (gallery_angle_range _ _ Hsj) as Haj.
  unfold galleryRadius in Hx, Hz.
  assert (Hang : INR (positionInRing i) * angleStep total
                 = INR (positionInRing j) * angleStep total).
  { apply circle_point_inj; try assumption; lra. }
  assert (Hstep : 0 < angleStep total).
  { unfold angleStep. pose proof PI_RGT_0.
    assert (0 < INR (Nat.min total 8)) by (apply lt_0_INR; lia).
    apply Rmult_lt_0_compat; [lra | apply Rinv_0_lt_compat; assumption]. }
  assert (Hslot : positionInRing i = positionInRing j).
  { apply INR_eq. nra. }
  apply Hne. unfold ringIndex, positionInRing in *.
  rewrite (Nat.div_mod_eq i 8), (Nat.div_mod_eq j 8). congruence.
Qed.

Lemma gallery_positions_distinct_witness :
  (0 < 10)%nat /\ (8 < 10)%nat /\ 0%nat <> 8%nat /\
  pos (getGalleryPosition (fun _ _ => mkEuler 0 0 0) 0 10)
    <> pos (getGalleryPosition (fun _ _ => mkEuler 0 0 0) 8 10).
Proof.
  assert (H0 : (0 < 10)%nat) by lia.
  assert (H8 : (8 < 10)%nat) by lia.
  assert (Hne : 0%nat <> 8%nat) by lia.
  split; [exact H0 |]. split; [exact H8 |]. split; [exact Hne |].
  exact (gallery_positions_distinct (fun _ _ => mkEuler 0 0 0) 0 8 10
           H0 H8 Hne).
Defined.

End MoreGeneratorFacts.

Module MoreUploadFacts.

Import App AppMore UploadFacts.

(** *** The policy *)

Lemma fresh_not_truthy (it : PhotoData) :
  isPlaceholder it = Some false -> truthy (isPlaceholder it) = false.
Proof. intros H. rewrite H. reflexivity. Qed.

Lemma activePhotoCount_fresh (items : list PhotoData) :
  Forall (fun it => isPlaceholder it = Some false) items ->
  activePhotoCount items = List.length items /\ placeholderCount items = 0%nat.
Proof.
  unfold activePhotoCount, placeholderCount.
  induction 1 as [| it its Hit _ [IHa IHp]]; [split; reflexivity |].
  cbn [filter]. rewrite (fresh_not_truthy _ Hit). cbn [negb List.length].
  rewrite IHa, IHp. split; reflexivity.
Qed.

Lemma counts_cons (p : PhotoData) (ps : list PhotoData) :
  activePhotoCount (p :: ps)
    = ((if truthy (isPlaceholder p) then 0 else 1) + activePhotoCount ps)%nat /\
  placeholderCount (p :: ps)
    = ((if truthy (isPlaceholder p) then 1 else 0) + placeholderCount ps)%nat.
Proof.
  unfold activePhotoCount, placeholderCount. cbn [filter].
  destruct (truthy (isPlaceholder p)); split; reflexivity.
Qed.

Lemma fillThenAppend_counts (prev items : list PhotoData) :
  Forall (fun it => isPlaceholder it = Some false) items ->
  activePhotoCount (fillThenAppend prev items)
    = (activePhotoCount prev + List.length items)%nat /\
  placeholderCount (fillThenAppend prev items)
    = (placeholderCount prev - List.length items)%nat.
Proof.
  revert items. induction prev as [| p ps IH]; intros items Hall.
  - cbn [fillThenAppend]. destruct (activePhotoCount_fresh _ Hall) as [Ha Hp].
    rewrite Ha, Hp. split; reflexivity.
  - destruct items as [| it its].
    + cbn [fillThenAppend List.length]. split; lia.
    + inversion Hall as [| ? ? Hit Hits]; subst.
      cbn [fillThenAppend].
      destruct (counts_cons p ps) as [Hca Hcp].
      destruct (truthy (isPlaceholder p)) eqn:Hp.
      * destruct (counts_cons it (fillThenAppend ps its)) as [Ha' Hp'].
        rewrite (fresh_not_truthy _ Hit) in Ha', Hp'.
        destruct (IH its Hits) as [IHa IHp].
        rewrite Ha', Hp', Hca, Hcp, IHa, IHp. cbn [List.length].
        split; lia.
      * destruct (counts_cons p (fillThenAppend ps (it :: its)))
          as [Ha' Hp'].
        rewrite Hp in Ha', Hp'.
        destruct (IH (it :: its) Hall) as [IHa IHp].
        rewrite Ha', Hp', Hca, Hcp, IHa, IHp. split; lia.
Qed.

Lemma fillThenAppend_keeps (prev items : list PhotoData) (i : nat)
  (p : PhotoData) :
  nth_error prev i = Some p -> truthy (isPlaceholder p) = false ->
  nth_error (fillThenAppend prev items) i = Some p.
Proof.
  revert items i. induction prev as [| q qs IH]; intros items i Hn Hp.
  - destruct i; discriminate.
  - destruct items as [| it its]; [exact Hn |].
    cbn [fillThenAppend].
    destruct i as [| i]; cbn [nth_error] in *.
    + injection Hn as ->. rewrite Hp. reflexivity.
    + destruct (truthy (isPlaceholder q)); cbn [nth_error]; apply IH;
        assumption.
Qed.

Lemma fillThenAppend_cons_real (p : PhotoData) (l b : list PhotoData) :
  truthy (isPlaceholder p) = false ->
  fillThenAppend (p :: l) b = p :: fillThenAppend l b.
Proof.
  intros Hp. destruct b as [| b0 bs].
  - rewrite !fillThenAppend_nil_r. reflexivity.
  - cbn [fillThenAppend]. rewrite Hp. reflexivity.
Qed.

Lemma fillThenAppend_fresh_prefix (a b : list PhotoData) :
  Forall (fun it => isPlaceholder it = Some false) a ->
  fillThenAppend a b = a ++ b.
Proof.
  induction 1 as [| it its Hit _ IH]; [reflexivity |].
  rewrite fillThenAppend_cons_real by (apply fresh_not_truthy, Hit).
  rewrite IH. reflexivity.
Qed.

Lemma fillThenAppend_compose (prev a b : list PhotoData) :
  Forall (fun it => isPlaceholder it = Some false) a ->
  fillThenAppend (fillThenAppend prev a) b = fillThenAppend prev (a ++ b).
Proof.
  revert a. induction prev as [| p ps IH]; intros a Ha.
  - cbn [fillThenAppend]. apply fillThenAppend_fresh_prefix, Ha.
  - destruct a as [| it its]; [reflexivity |].
    inversion Ha as [| ? ? Hit Hits]; subst.
    cbn [fillThenAppend app].
    destruct (truthy (isPlaceholder p)) eqn:Hp.
    + rewrite fillThenAppend_cons_real by (apply fresh_not_truthy, Hit).
      rewrite IH by exact Hits. reflexivity.
    + rewrite fillThenAppend_cons_real by exact Hp.
      rewrite IH by exact Ha. reflexivity.
Qed.

(** *** The handler, with the generator it leaves behind *)

Section Upload.

Variable File : Type.
Variable createObjectURL : File -> string.
Variable base36 : R -> string.

#[local] Abbreviation newItems := (newItems File createObjectURL base36).
#[local] Abbreviation fillPlaceholders :=
  (fillPlaceholders File createObjectURL base36).
#[local] Abbreviation appendRemaining :=
  (appendRemaining File createObjectURL base36).
#[local] Abbreviation handlePhotoUpload :=
  (handlePhotoUpload File createObjectURL base36).

(** The generator after [n] more draws. *)
Lemma advance_cursor (g : Rng) (n : nat) :
  mkRng (draws (advance g)) (cursor (advance g) + n)
    = mkRng (draws g) (cursor g + S n).
Proof. unfold advance. simpl. f_equal. lia. Qed.

Lemma appendRemaining_rng (files : list File) (n : nat) :
  forall next k g, n = (List.length files - k)%nat ->
    snd (appendRemaining n files next k g)
      = mkRng (draws g) (cursor g + n).
Proof.
  induction n as [| n IH]; intros next k g Hn; simpl.
  - rewrite Nat.add_0_r. destruct g; reflexivity.
  - assert (Hk : (k < List.length files)%nat) by lia.
    apply Nat.ltb_lt in Hk as Hkb. rewrite Hkb.
    destruct (nth_error files k) as [f |] eqn:Hf.
    + unfold bind. rewrite random_run. rewrite IH by lia.
      apply advance_cursor.
    + apply nth_error_None in Hf. lia.
Qed.

Lemma loops_rng (files : list File) (rest : list PhotoData) :
  forall done k g fuel, (List.length rest <= fuel)%nat ->
    snd ((st <- fillPlaceholders fuel (List.length done) files
                  (done ++ rest) k ;;
          appendRemaining (List.length files - snd st) files (fst st)
            (snd st)) g)
      = mkRng (draws g) (cursor g + (List.length files - k)).
Proof.
  induction rest as [| p ps IH]; intros done k g fuel Hfuel.
  - rewrite app_nil_r. unfold bind.
    rewrite fillPlaceholders_exit by (left; lia).
    cbn [fst snd]. apply appendRemaining_rng. reflexivity.
  - destruct fuel as [| fuel]; [simpl in Hfuel; lia |].
    simpl in Hfuel.
    destruct (nth_error files k) as [f |] eqn:Hf.
    + assert (Hk : (k < List.length files)%nat).
      { apply nth_error_Some. congruence. }
      pose proof (nth_error_middle done ps p) as Hp.
      destruct (truthy (isPlaceholder p)) eqn:Ht.
      * unfold bind.
        rewrite (fillPlaceholders_fill _ _ _ _ _ _ _ _ _ _ _ Hp Hf Ht).
        rewrite assign_middle, (snoc_app _ done ps).
        rewrite <- (snoc_length _ done
                      (newPhoto File createObjectURL base36 (peek g 0) f)).
        pose proof (IH (done ++ [newPhoto File createObjectURL base36
                                   (peek g 0) f]) (S k)
                      (advance g) fuel ltac:(lia)) as H.
        unfold bind in H. rewrite H.
        replace (List.length files - k)%nat
          with (S (List.length files - S k)) by lia.
        apply advance_cursor.
      * unfold bind.
        rewrite (fillPlaceholders_keep _ _ _ _ _ _ _ _ _ _ _ Hp Hf Ht).
        rewrite (snoc_app _ done ps), <- (snoc_length _ done p).
        pose proof (IH (done ++ [p]) k g fuel ltac:(lia)) as H.
        unfold bind in H. exact H.
    + apply nth_error_None in Hf. unfold bind.
      rewrite fillPlaceholders_exit by (right; lia).
      cbn [fst snd].
      replace (List.length files - k)%nat with 0%nat by lia.
      simpl. rewrite Nat.add_0_r. destruct g; reflexivity.
Qed.

Lemma handlePhotoUpload_run (files : list File) (prev : list PhotoData)
  (g : Rng) :
  handlePhotoUpload (Some files) prev g
    = (fillThenAppend prev (newItems g 0 files),
       mkRng (draws g) (cursor g + List.length files)).
Proof.
  rewrite (surjective_pairing (handlePhotoUpload (Some files) prev g)).
  rewrite handlePhotoUpload_refines. f_equal.
  unfold App.handlePhotoUpload. destruct files as [| f fs].
  - simpl. rewrite Nat.add_0_r. destruct g; reflexivity.
  - cbn [List.length Nat.ltb Nat.leb].
    pose proof (loops_rng (f :: fs) prev [] 0 g (List.length prev) (le_n _))
      as H.
    rewrite Nat.sub_0_r in H. exact H.
Qed.

Lemma newItems_shift (g : Rng) (n k : nat) (files : list File) :
  newItems (mkRng (draws g) (cursor g + n)) k files = newItems g (n + k) files.
Proof.
  revert k. induction files as [| f fs IH]; intros k; simpl; [reflexivity |].
  rewrite IH. f_equal; [| f_equal; lia].
  unfold peek. simpl. f_equal. f_equal. lia.
Qed.

Lemma newItems_app (g : Rng) (k : nat) (a b : list File) :
  newItems g k (a ++ b)
    = newItems g k a ++ newItems g (k + List.length a) b.
Proof.
  revert k. induction a as [| f fs IH]; intros k; simpl.
  - rewrite Nat.add_0_r. reflexivity.
  - rewrite IH. do 3 f_equal. lia.
Qed.

(** X4: an upload raises the number of active photos by the number of
    files and lowers the number of placeholders by as much (not below
    zero); the list never gets shorter and every entry is one or the
    other. *)
Theorem upload_counts (files : list File) (prev : list PhotoData)
  (g : Rng) :
  let next := fst (handlePhotoUpload (Some files) prev g) in
  activePhotoCount next = (activePhotoCount prev + List.length files)%nat /\
  placeholderCount next = (placeholderCount prev - List.length files)%nat /\
  (List.length prev <= List.length next)%nat /\
  List.length next = (activePhotoCount next + placeholderCount next)%nat.
Proof.
  intros next. subst next. rewrite handlePhotoUpload_refines.
  destruct (fillThenAppend_counts prev (newItems g 0 files)
              (newItems_fresh File createObjectURL base36 g 0 files))
    as [Ha Hp].
  rewrite newItems_length in Ha, Hp.
  split; [exact Ha |]. split; [exact Hp |]. split.
  - rewrite fillThenAppend_length. lia.
  - unfold activePhotoCount, placeholderCount.
    generalize (fillThenAppend prev (newItems g 0 files)) as l.
    induction l as [| q qs IH]; [reflexivity |].
    cbn [filter List.length].
    destruct (truthy (isPlaceholder q)); cbn [negb List.length]; lia.
Qed.

(** X5: a photo that is not a placeholder keeps its index through any
    upload. *)
Theorem upload_keeps_real_photos (files : list File)
  (prev : list PhotoData) (g : Rng) (i : nat) (p : PhotoData) :
  nth_error prev i = Some p -> truthy (isPlaceholder p) = false ->
  nth_error (fst (handlePhotoUpload (Some files) prev g)) i = Some p.
Proof.
  intros Hn Hp. rewrite handlePhotoUpload_refines.
  apply fillThenAppend_keeps; assumption.
Qed.

(** X6: two uploads in a row give the same photos, and leave the same
    generator, as one upload of the two file lists concatenated. *)
Theorem upload_composes (files1 files2 : list File)
  (prev : list PhotoData) (g : Rng) :
  (next <- handlePhotoUpload (Some files1) prev ;;
   handlePhotoUpload (Some files2) next) g
    = handlePhotoUpload (Some (files1 ++ files2)) prev g.
Proof.
  unfold bind. rewrite !handlePhotoUpload_run.
  rewrite fillThenAppend_compose by apply newItems_fresh.
  rewrite newItems_shift, newItems_app, length_app, !Nat.add_0_r.
  simpl. f_equal. f_equal. lia.
Qed.

End Upload.

Lemma upload_keeps_real_photos_witness :
  let kept := mkPhotoData "k" "u" 1 (Some false) in
  let prev := [placeholder 0; kept] in
  nth_error prev 1 = Some kept /\
  truthy (isPlaceholder kept) = false /\
  nth_error
    (fst (handlePhotoUpload nat natToString (fun _ => "id"%string)
            (Some [7; 8; 9]%nat) prev (mkRng (fun _ => 0) 0))) 1
    = Some kept.
Proof.
  intros kept prev.
  assert (Hn : nth_error prev 1 = Some kept) by reflexivity.
  assert (Hp : truthy (isPlaceholder kept) = false) by reflexivity.
  split; [exact Hn |]. split; [exact Hp |].
  exact (upload_keeps_real_photos nat natToString (fun _ => "id"%string)
           [7; 8; 9]%nat prev (mkRng (fun _ => 0) 0) 1 kept Hn Hp).
Defined.

End MoreUploadFacts.

Module MorePopulationFacts.

Import PopulationFacts.

Lemma random_at (g : Rng) (n : nat) :
  random (mkRng (draws g) (cursor g + n))
    = (peek g n, mkRng (draws g) (cursor g + S n)).
Proof.
  unfold random, peek. simpl. f_equal. f_equal. lia.
Qed.

Lemma ornamentData_run (i : nat) (g : Rng) :
  Ornaments.ornamentData i g =
    (Ornaments.mkEntityData
       (multiplyScalar (getTreePosition i Ornaments.ORNAMENT_COUNT) 1.05)
       (fst (getScatterPosition i g))
       (peek g 3 * 0.3 + 0.2)
       (peek g 4 * PI * 2)
       (if Rgt_dec (peek g 5) 0.7 then "#D4AF37"
        else if Rgt_dec (peek g 6) 0.5 then "#C0C0C0" else "#B8860B")%string,
     mkRng (draws g)
       (cursor g + (if Rgt_dec (peek g 5) 0.7 then 6 else 7))).
Proof.
  unfold Ornaments.ornamentData. cbv zeta. unfold bind at 1.
  rewrite getScatterPosition_draws. cbv zeta. cbn [fst].
  unfold bind. rewrite !random_at.
  destruct (Rgt_dec (peek g 5) 0.7).
  - reflexivity.
  - rewrite random_at. reflexivity.
Qed.

Lemma giftData_run (i : nat) (g : Rng) :
  Ornaments.giftData i g =
    (Ornaments.mkEntityData
       (mkVector3
          (x (getTreePosition (i * 2) (Ornaments.GIFT_COUNT * 3)) * 1.2)
          (mapLinear (INR i / INR Ornaments.GIFT_COUNT) 0 1 (-5) 0)
          (z (getTreePosition (i * 2) (Ornaments.GIFT_COUNT * 3)) * 1.2))
       (fst (getScatterPosition (i + 1000) g))
       (peek g 3 * 0.4 + 0.3)
       (peek g 4 * PI * 2)
       (if Rgt_dec (peek g 5) 0.5 then "#8B0000"
        else if Rgt_dec (peek g 6) 0.5 then "#006400" else "#4B0082")%string,
     mkRng (draws g)
       (cursor g + (if Rgt_dec (peek g 5) 0.5 then 6 else 7))).
Proof.
  unfold Ornaments.giftData. cbv zeta. unfold bind at 1.
  rewrite getScatterPosition_draws. cbv zeta. cbn [fst].
  unfold bind. rewrite !random_at.
  destruct (Rgt_dec (peek g 5) 0.5).
  - reflexivity.
  - rewrite random_at. reflexivity.
Qed.


Lemma scatter_shell (i : nat) (g : Rng) :
  0 <= peek g 2 < 1 ->
  let v := fst (getScatterPosition i g) in
  8 * 8 <= x v * x v + y v * y v + z v * z v < 23 * 23.
Proof.
  intros Hu v. subst v. rewrite getScatterPosition_draws. cbv zeta. simpl.
  rewrite MoreGeneratorFacts.sphere_norm. unfold SCATTER_RADIUS. nra.
Qed.

Lemma axisDistSq_scaled (v : Vector3) (k : R) :
  axisDistSq (multiplyScalar v k) = (k * k) * axisDistSq v.
Proof. unfold axisDistSq, multiplyScalar. simpl. ring. Qed.

Lemma axisDistSq_tree (i total : nat) :
  axisDistSq (getTreePosition i total)
    = treeRadiusAt (treeY i total) * treeRadiusAt (treeY i total).
Proof.
  unfold getTreePosition, axisDistSq. cbv zeta. simpl.
  apply GeneratorFacts.cos_sin_circle.
Qed.

(** X7: with all draws in [[0,1)], an ornament sits at the tree position
    scaled by 1.05 (height and distance from the axis), its scatter
    position is in the shell, its scale in [[0.2, 0.5)], its phase in
    [[0, 2 pi)], its colour one of three, and six or seven draws are
    consumed. *)
Theorem ornament_data_ranges (i : nat) (g : Rng) :
  (forall k, 0 <= peek g k < 1) ->
  let d := fst (Ornaments.ornamentData i g) in
  let g' := snd (Ornaments.ornamentData i g) in
  let r := treeRadiusAt (treeY i Ornaments.ORNAMENT_COUNT) in
  y (Ornaments.treePos d) = 1.05 * treeY i Ornaments.ORNAMENT_COUNT /\
  axisDistSq (Ornaments.treePos d) = (1.05 * r) * (1.05 * r) /\
  8 * 8 <= x (Ornaments.scatterPos d) * x (Ornaments.scatterPos d)
           + y (Ornaments.scatterPos d) * y (Ornaments.scatterPos d)
           + z (Ornaments.scatterPos d) * z (Ornaments.scatterPos d)
        < 23 * 23 /\
  0.2 <= Ornaments.scale d < 0.5 /\
  0 <= Ornaments.phase d < 2 * PI /\
  In (Ornaments.color d) ["#D4AF37"; "#C0C0C0"; "#B8860B"]%string /\
  draws g' = draws g /\
  (cursor g' = (cursor g + 6)%nat \/ cursor g' = (cursor g + 7)%nat).
Proof.
  intros Hdraws d g' r. subst d g' r. rewrite ornamentData_run.
  cbn [fst snd Ornaments.treePos Ornaments.scatterPos Ornaments.scale
       Ornaments.phase Ornaments.color draws cursor].
  pose proof (Hdraws 3%nat) as H3. pose proof (Hdraws 4%nat) as H4.
  pose proof PI_RGT_0 as Hpi.
  split; [unfold multiplyScalar, getTreePosition; simpl; ring |].
  split; [rewrite axisDistSq_scaled, axisDistSq_tree; ring |].
  split; [apply scatter_shell, Hdraws |].
  split; [lra |]. split; [nra |].
  split.
  - destruct (Rgt_dec (peek g 5) 0.7); [simpl; auto |].
    destruct (Rgt_dec (peek g 6) 0.5); simpl; auto.
  - split; [reflexivity |].
    destruct (Rgt_dec (peek g 5) 0.7); [left | right]; reflexivity.
Qed.

Lemma ornament_data_ranges_witness :
  let g := mkRng (fun _ => 0.5) 0 in
  (forall k, 0 <= peek g k < 1) /\
  0.2 <= Ornaments.scale (fst (Ornaments.ornamentData 0 g)) < 0.5.
Proof.
  intros g.
  assert (H : forall k, 0 <= peek g k < 1)
    by (intros k; unfold peek; simpl; lra).
  split; [exact H |].
  destruct (ornament_data_ranges 0 g H) as (_ & _ & _ & Hs & _).
  exact Hs.
Defined.

(** X8: with all draws in [[0,1)], gift [i] of the 40 sits at height
    [-5 + i / 8], below 0 and strictly rising with the index, at 1.2 times
    the tree radius of index [2 i] of 120; its scale is in [[0.3, 0.7)],
    its phase in [[0, 2 pi)], its colour one of three. *)
Theorem gift_data_ranges (i j : nat) (g : Rng) :
  (forall k, 0 <= peek g k < 1) ->
  (i < j)%nat -> (j < Ornaments.GIFT_COUNT)%nat ->
  let d := fst (Ornaments.giftData i g) in
  let d' := fst (Ornaments.giftData j g) in
  let r := treeRadiusAt (treeY (i * 2) (Ornaments.GIFT_COUNT * 3)) in
  y (Ornaments.treePos d) = -5 + INR i / 8 /\
  -5 <= y (Ornaments.treePos d) /\
  y (Ornaments.treePos d) < y (Ornaments.treePos d') /\
  y (Ornaments.treePos d') < 0 /\
  axisDistSq (Ornaments.treePos d) = (1.2 * r) * (1.2 * r) /\
  0.3 <= Ornaments.scale d < 0.7 /\
  0 <= Ornaments.phase d < 2 * PI /\
  In (Ornaments.color d) ["#8B0000"; "#006400"; "#4B0082"]%string.
Proof.
  intros Hdraws Hij Hj d d' r. subst d d' r. rewrite !giftData_run.
  cbn [fst snd Ornaments.treePos Ornaments.scatterPos Ornaments.scale
       Ornaments.phase Ornaments.color draws cursor x y z].
  pose proof (Hdraws 3%nat) as H3. pose proof (Hdraws 4%nat) as H4.
  pose proof PI_RGT_0 as Hpi.
  assert (Hmap : forall n, mapLinear (INR n / INR Ornaments.GIFT_COUNT)
                             0 1 (-5) 0 = -5 + INR n / 8).
  { intros n. unfold mapLinear, Ornaments.GIFT_COUNT.
    replace (INR 40) with 40 by (simpl; lra). field. }
  rewrite !Hmap.
  pose proof (pos_INR i) as Hi0.
  apply lt_INR in Hij. apply lt_INR in Hj.
  replace (INR Ornaments.GIFT_COUNT) with 40 in Hj
    by (unfold Ornaments.GIFT_COUNT; simpl; lra).
  split; [reflexivity |]. split; [lra |]. split; [lra |]. split; [lra |].
  split.
  { pose proof (axisDistSq_tree (i * 2) (Ornaments.GIFT_COUNT * 3)) as Ha.
    unfold axisDistSq in *. cbn [x z]. nra. }
  split; [lra |]. split; [nra |].
  destruct (Rgt_dec (peek g 5) 0.5); [simpl; auto |].
  destruct (Rgt_dec (peek g 6) 0.5); simpl; auto.
Qed.

Lemma gift_data_ranges_witness :
  let g := mkRng (fun _ => 0.5) 0 in
  (forall k, 0 <= peek g k < 1) /\ (0 < 39)%nat /\
  (39 < Ornaments.GIFT_COUNT)%nat /\
  y (Ornaments.treePos (fst (Ornaments.giftData 39 g))) < 0.
Proof.
  intros g.
  assert (H : forall k, 0 <= peek g k < 1)
    by (intros k; unfold peek; simpl; lra).
  assert (Hij : (0 < 39)%nat) by lia.
  assert (Hj : (39 < Ornaments.GIFT_COUNT)%nat)
    by (unfold Ornaments.GIFT_COUNT; lia).
  split; [exact H |]. split; [exact Hij |]. split; [exact Hj |].
  destruct (gift_data_ranges 0 39 g H Hij Hj) as (_ & _ & _ & Hy & _).
  exact Hy.
Defined.

End MorePopulationFacts.

Module FoliageFacts.

Import PopulationFacts MorePopulationFacts.

Lemma foliageFrames_run (times : list R) (progress : R) :
  forall f : Foliage.Points,
    exists ut,
      fold_left (fun m t => Foliage.foliageFrame t progress m) times (Some f)
        = Some (Foliage.mkPoints ut
                  (progress
                   + 0.9 ^ List.length times
                     * (Foliage.uProgress f - progress))
                  (Foliage.rotationY f
                   + (if Rlt_dec progress 0.5
                      then INR (List.length times) * 0.002 else 0))).
Proof.
  induction times as [| t ts IH]; intros f.
  - exists (Foliage.uTime f). simpl. destruct f as [ut up ry]. simpl.
    f_equal. f_equal.
    + lra.
    + destruct (Rlt_dec progress 0.5); lra.
  - cbn [fold_left Foliage.foliageFrame].
    destruct (IH (Foliage.mkPoints t
                    (lerp (Foliage.uProgress f) progress 0.1)
                    (if Rlt_dec progress 0.5
                     then Foliage.rotationY f + 0.002
                     else Foliage.rotationY f))) as [ut Hut].
    exists ut. rewrite Hut.
    cbn [Foliage.uTime Foliage.uProgress Foliage.rotationY].
    f_equal. f_equal.
    + unfold lerp. cbn [List.length pow]. lra.
    + change (List.length (t :: ts)) with (S (List.length ts)).
      rewrite S_INR. destruct (Rlt_dec progress 0.5); lra.
Qed.

(** X9: over any number of frames with the same progress, the foliage
    uniform [uProgress] keeps nine tenths of its distance to the progress
    per frame: it stays between its start and the progress and never
    moves away from it; the rotation has advanced by 0.002 per frame if
    the progress is below 0.5 and not at all otherwise. *)
Theorem foliage_progress_smoothing (times : list R) (progress : R)
  (f : Foliage.Points) :
  let m := fold_left (fun m t => Foliage.foliageFrame t progress m) times
             (Some f) in
  let n := List.length times in
  option_map Foliage.uProgress m
    = Some (progress + 0.9 ^ n * (Foliage.uProgress f - progress)) /\
  (forall u, option_map Foliage.uProgress m = Some u ->
     Rabs (u - progress) <= Rabs (Foliage.uProgress f - progress) /\
     Rmin (Foliage.uProgress f) progress <= u
       <= Rmax (Foliage.uProgress f) progress) /\
  option_map Foliage.rotationY m
    = Some (Foliage.rotationY f
            + (if Rlt_dec progress 0.5 then INR n * 0.002 else 0)).
Proof.
  intros m n. subst m n.
  destruct (foliageFrames_run times progress f) as [ut ->].
  cbn [option_map Foliage.uProgress Foliage.rotationY].
  set (n := List.length times). set (d := Foliage.uProgress f - progress).
  assert (Hpow : 0 < 0.9 ^ n) by (apply pow_lt; lra).
  assert (Hle : 0.9 ^ n <= 1).
  { clear. induction n as [| n IH]; simpl; [lra |].
    assert (0 <= 0.9 ^ n) by (apply pow_le; lra). nra. }
  split; [reflexivity |]. split; [| reflexivity].
  intros u Hu. injection Hu as <-.
  replace (progress + 0.9 ^ n * d - progress) with (0.9 ^ n * d) by ring.
  rewrite Rabs_mult, (Rabs_pos_eq (0.9 ^ n)) by lra.
  pose proof (Rabs_pos d). split; [nra |].
  subst d. unfold Rmin, Rmax.
  destruct (Rle_dec (Foliage.uProgress f) progress); split; nra.
Qed.

Lemma foliage_progress_smoothing_witness :
  let f := Foliage.mkPoints 0 0 0 in
  let m := fold_left (fun m t => Foliage.foliageFrame t 1 m) [0; 0]
             (Some f) in
  option_map Foliage.uProgress m = Some (1 + 0.9 ^ 2 * (0 - 1)) /\
  Rabs (1 + 0.9 ^ 2 * (0 - 1) - 1) <= Rabs (0 - 1).
Proof.
  intros f m.
  destruct (foliage_progress_smoothing [0; 0] 1 f) as (Hu & Hb & _).
  split; [exact Hu |].
  exact (proj1 (Hb _ Hu)).
Defined.

(** X10: the foliage vertex differs from the interpolated point by at
    most 0.05 in x and in z and not at all in y, and is that point exactly
    from [uProgress = 0.5] on; [vAlpha] is in [[0.8, 1]]; a fragment is
    discarded exactly when it is farther than 0.5 from the centre of its
    point, and otherwise its alpha is in [[0, 1]]. *)
Theorem foliage_vertex_and_alpha (uTime uProgress r : R)
  (p : Foliage.Particle) :
  let v := Foliage.vertexPos uTime uProgress p in
  let m := mix (Foliage.position p) (Foliage.aTargetPos p) uProgress in
  y v = y m /\
  Rabs (x v - x m) <= 0.05 /\
  Rabs (z v - z m) <= 0.05 /\
  (0.5 <= uProgress -> v = m) /\
  0.8 <= FoliageShader.vAlpha uTime p <= 1 /\
  (0 <= r ->
   match FoliageShader.fragmentAlpha r (FoliageShader.vAlpha uTime p) with
   | None => 0.5 < r
   | Some a => r <= 0.5 /\ 0 <= a <= 1
   end).
Proof.
  intros v m. subst v m. unfold Foliage.vertexPos. cbv zeta.
  set (m := mix (Foliage.position p) (Foliage.aTargetPos p) uProgress).
  assert (Ha : 0.8 <= FoliageShader.vAlpha uTime p <= 1).
  { unfold FoliageShader.vAlpha. cbv zeta.
    pose proof (SIN_bound (uTime * 5.0 + x (Foliage.position p) * 10.0)).
    lra. }
  assert (Hcos : forall a, Rabs (cos a * 0.05) <= 0.05).
  { intros a. rewrite Rabs_mult, (Rabs_pos_eq 0.05) by lra.
    pose proof (COS_bound a).
    assert (Rabs (cos a) <= 1) by (apply Rabs_le; lra). nra. }
  split; [destruct (Rlt_dec uProgress 0.5); reflexivity |].
  split.
  { destruct (Rlt_dec uProgress 0.5); cbn [x].
    - replace (x m + sin (uTime * 1.5 + y m) * 0.05 - x m)
        with (sin (uTime * 1.5 + y m) * 0.05) by ring.
      apply sin_offset_bound. lra.
    - replace (x m - x m) with 0 by ring. rewrite Rabs_R0. lra. }
  split.
  { destruct (Rlt_dec uProgress 0.5); cbn [z].
    - replace (z m + cos (uTime * 1.5 + y m) * 0.05 - z m)
        with (cos (uTime * 1.5 + y m) * 0.05) by ring.
      apply Hcos.
    - replace (z m - z m) with 0 by ring. rewrite Rabs_R0. lra. }
  split.
  { intros Hhalf. destruct (Rlt_dec uProgress 0.5); [lra | reflexivity]. }
  split; [exact Ha |].
  intros Hr. unfold FoliageShader.fragmentAlpha.
  destruct (Rgt_dec r 0.5) as [Hout | Hin]; [lra |].
  cbv zeta. split; [lra |].
  assert (0 <= (1.0 - r * 2.0) * (1.0 - r * 2.0) <= 1) by nra.
  nra.
Qed.

Lemma foliage_vertex_and_alpha_witness :
  let p := Foliage.mkParticle origin origin 1 in
  0.5 <= 0.75 /\ 0 <= 0.25 /\
  Foliage.vertexPos 0 0.75 p = mix origin origin 0.75.
Proof.
  intros p.
  assert (Hu : 0.5 <= 0.75) by lra. assert (Hr : 0 <= 0.25) by lra.
  destruct (foliage_vertex_and_alpha 0 0.75 0.25 p)
    as (_ & _ & _ & H & _).
  split; [exact Hu |]. split; [exact Hr |]. exact (H Hu).
Defined.

Lemma particle_run (i : nat) (g : Rng) :
  Foliage.particle i g =
    (let treeP := getTreePosition i Foliage.COUNT in
     Foliage.mkParticle
       (mkVector3 (x treeP + (peek g 0 - 0.5) * 0.8)
                  (y treeP + (peek g 2 - 0.5) * 0.5)
                  (z treeP + (peek g 1 - 0.5) * 0.8))
       (fst (getScatterPosition i (mkRng (draws g) (cursor g + 3))))
       (peek g 6 * 0.6 + 0.3),
     mkRng (draws g) (cursor g + 7)).
Proof.
  unfold Foliage.particle. cbv zeta.
  replace g with (mkRng (draws g) (cursor g + 0)) at 1
    by (rewrite Nat.add_0_r; destruct g; reflexivity).
  unfold bind. rewrite !random_at.
  rewrite getScatterPosition_draws. cbv zeta. cbn [draws cursor fst].
  replace (cursor g + 3 + 3)%nat with (cursor g + 6)%nat by lia.
  rewrite random_at. reflexivity.
Qed.

Lemma peek_shift (g : Rng) (n k : nat) :
  peek (mkRng (draws g) (cursor g + n)) k = peek g (n + k).
Proof. unfold peek. simpl. f_equal. lia. Qed.

(** X11: with all draws in [[0,1)], a foliage particle starts within
    0.4 of its tree position in x and z and within 0.25 in y, its target is
    in the scatter shell, its size in [[0.3, 0.9)], and seven draws are
    consumed. *)
Theorem foliage_particle_ranges (i : nat) (g : Rng) :
  (forall k, 0 <= peek g k < 1) ->
  let p := fst (Foliage.particle i g) in
  let g' := snd (Foliage.particle i g) in
  let t := getTreePosition i Foliage.COUNT in
  Rabs (x (Foliage.position p) - x t) <= 0.4 /\
  Rabs (y (Foliage.position p) - y t) <= 0.25 /\
  Rabs (z (Foliage.position p) - z t) <= 0.4 /\
  8 * 8 <= x (Foliage.aTargetPos p) * x (Foliage.aTargetPos p)
           + y (Foliage.aTargetPos p) * y (Foliage.aTargetPos p)
           + z (Foliage.aTargetPos p) * z (Foliage.aTargetPos p)
        < 23 * 23 /\
  0.3 <= Foliage.aSize p < 0.9 /\
  draws g' = draws g /\ cursor g' = (cursor g + 7)%nat.
Proof.
  intros Hdraws p g' t. subst p g' t. rewrite particle_run. cbv zeta.
  cbn [fst snd Foliage.position Foliage.aTargetPos Foliage.aSize x y z
       draws cursor].
  pose proof (Hdraws 0%nat). pose proof (Hdraws 1%nat).
  pose proof (Hdraws 2%nat). pose proof (Hdraws 6%nat).
  split; [apply Rabs_le; lra |]. split; [apply Rabs_le; lra |].
  split; [apply Rabs_le; lra |].
  split.
  { apply scatter_shell. rewrite peek_shift. apply Hdraws. }
  split; [lra |]. split; reflexivity.
Qed.

Lemma foliage_particle_ranges_witness :
  let g := mkRng (fun _ => 0.5) 0 in
  (forall k, 0 <= peek g k < 1) /\
  0.3 <= Foliage.aSize (fst (Foliage.particle 0 g)) < 0.9.
Proof.
  intros g.
  assert (H : forall k, 0 <= peek g k < 1)
    by (intros k; unfold peek; simpl; lra).
  split; [exact H |].
  destruct (foliage_particle_ranges 0 g H) as (_ & _ & _ & _ & Hs & _).
  exact Hs.
Defined.

End FoliageFacts.

Module AccessoryFacts.

Import PopulationFacts MorePopulationFacts.

(** *** Photos *)

Lemma treeY_scaled (i total k : nat) :
  (1 <= total)%nat -> (1 <= k)%nat ->
  treeY (i * k) (total * k) = treeY i total.
Proof.
  intros Ht Hk. unfold treeY. rewrite !mult_INR.
  assert (0 < INR total) by (apply lt_0_INR; lia).
  assert (0 < INR k) by (apply lt_0_INR; lia).
  f_equal. f_equal. field. lra.
Qed.

(** X12: a photo's tree position has the height (raised by 2) and the
    distance from the axis of the plain tree position of its index; the
    factor 30 only changes the angle, to [15 * index]. *)
Theorem photo_tree_position (i total : nat) :
  (1 <= total)%nat ->
  let r := treeRadiusAt (treeY i total) in
  PhotoGallery.treePos i total
    = mkVector3 (cos (15 * INR i) * r) (treeY i total + 2)
        (sin (15 * INR i) * r) /\
  y (PhotoGallery.treePos i total) = y (getTreePosition i total) + 2 /\
  axisDistSq (PhotoGallery.treePos i total)
    = axisDistSq (getTreePosition i total).
Proof.
  intros Ht r. subst r.
  assert (Hpos : PhotoGallery.treePos i total
    = mkVector3 (cos (15 * INR i) * treeRadiusAt (treeY i total))
        (treeY i total + 2)
        (sin (15 * INR i) * treeRadiusAt (treeY i total))).
  { unfold PhotoGallery.treePos, getTreePosition. cbv zeta. cbn [x y z].
    rewrite (treeY_scaled i total 30 Ht) by lia.
    unfold treeAngle. rewrite mult_INR.
    replace (INR i * INR 30 * 0.5) with (15 * INR i) by (simpl; lra).
    reflexivity. }
  split; [exact Hpos |]. rewrite Hpos. split.
  - reflexivity.
  - rewrite axisDistSq_tree. unfold axisDistSq. cbn [x z].
    apply GeneratorFacts.cos_sin_circle.
Qed.

Lemma photo_tree_position_witness :
  (1 <= 8)%nat /\
  y (PhotoGallery.treePos 3 8) = y (getTreePosition 3 8) + 2.
Proof.
  assert (H : (1 <= 8)%nat) by lia.
  split; [exact H |].
  exact (proj1 (proj2 (photo_tree_position 3 8 H))).
Defined.

(** X13: a photo frame leaves the group at nine tenths of its previous
    offset from the target, in each coordinate, and on the target if it
    was there; the scale is [0.8 + 1.7 * progress], within [[0.8, 2.5]] for
    a progress in [[0, 1]]; without a mounted group nothing happens. *)
Theorem photo_frame_smoothing
  (lookAt : Vector3 -> Vector3 -> Euler) (time progress : R)
  (index total : nat) (g : PhotoGallery.Group) :
  let T := PhotoGallery.targetPos lookAt time progress index total in
  let old := PhotoGallery.position g in
  PhotoGallery.photoFrame lookAt time progress index total (Some g)
    = Some (PhotoGallery.mkGroup
              (mkVector3 (x T + 0.9 * (x old - x T))
                         (y T + 0.9 * (y old - y T))
                         (z T + 0.9 * (z old - z T)))
              (0.8 + 1.7 * progress)) /\
  (0 <= progress <= 1 -> 0.8 <= 0.8 + 1.7 * progress <= 2.5) /\
  (old = T ->
   option_map PhotoGallery.position
     (PhotoGallery.photoFrame lookAt time progress index total (Some g))
     = Some T) /\
  PhotoGallery.photoFrame lookAt time progress index total None = None.
Proof.
  intros T old. subst old.
  assert (Hrun :
    PhotoGallery.photoFrame lookAt time progress index total (Some g)
    = Some (PhotoGallery.mkGroup
              (mkVector3 (x T + 0.9 * (x (PhotoGallery.position g) - x T))
                         (y T + 0.9 * (y (PhotoGallery.position g) - y T))
                         (z T + 0.9 * (z (PhotoGallery.position g) - z T)))
              (0.8 + 1.7 * progress))).
  { unfold PhotoGallery.photoFrame. fold T. unfold lerpTo, lerp.
    f_equal. f_equal; [f_equal |]; lra. }
  split; [exact Hrun |]. split; [intros; lra |]. split; [| reflexivity].
  intros Heq. rewrite Hrun, Heq. cbn [option_map PhotoGallery.position].
  destruct T as [tx ty tz]. cbn [x y z]. f_equal. f_equal; lra.
Qed.

Lemma photo_frame_smoothing_witness :
  0 <= 0.5 <= 1 /\ 0.8 <= 0.8 + 1.7 * 0.5 <= 2.5.
Proof.
  assert (H : 0 <= 0.5 <= 1) by lra.
  split; [exact H |].
  destruct (photo_frame_smoothing (fun _ _ => mkEuler 0 0 0) 0 0.5 0 1
              (PhotoGallery.mkGroup origin 1)) as (_ & Hs & _).
  exact (Hs H).
Defined.

(** *** The star *)

(** X14: a star frame puts the star at height [6.5 + 4 * progress] with
    scale [1 + 0.5 * progress], keeps x and z, tilts it by at most 0.1; for
    a progress in [[0, 1]] the star stays above the apex of the tree, at
    most at 10.5; a frame overwrites what the previous frame wrote. *)
Theorem star_frame (t t' progress progress' : R)
  (m : TreeAccessories.Mesh) :
  TreeAccessories.starFrame t progress (Some m)
    = Some (TreeAccessories.mkMesh
              (mkVector3 (x (TreeAccessories.position m))
                 (6.5 + 4 * progress)
                 (z (TreeAccessories.position m)))
              (mkEuler (ex (TreeAccessories.rotation m)) (t * 0.5)
                 (sin t * 0.1))
              (1 + 0.5 * progress)) /\
  Rabs (sin t * 0.1) <= 0.1 /\
  (0 <= progress <= 1 ->
     TREE_HEIGHT / 2 < 6.5 + 4 * progress <= 10.5 /\
     1 <= 1 + 0.5 * progress <= 1.5) /\
  TreeAccessories.starFrame t progress
    (TreeAccessories.starFrame t' progress' (Some m))
    = TreeAccessories.starFrame t progress (Some m) /\
  TreeAccessories.starFrame t progress None = None.
Proof.
  split.
  { unfold TreeAccessories.starFrame, TreeAccessories.starScatterY,
      TreeAccessories.starTreeY, lerp, TREE_HEIGHT.
    f_equal. f_equal; [f_equal |]; lra. }
  split; [apply sin_offset_bound; lra |].
  split; [unfold TREE_HEIGHT; intros; lra |].
  split; reflexivity.
Qed.

Lemma star_frame_witness :
  0 <= 0 <= 1 /\ TREE_HEIGHT / 2 < 6.5 + 4 * 0 <= 10.5.
Proof.
  assert (H : 0 <= 0 <= 1) by lra.
  split; [exact H |].
  destruct (star_frame 0 0 0 0
              (TreeAccessories.mkMesh origin (mkEuler 0 0 0) 1))
    as (_ & _ & Hy & _).
  exact (proj1 (Hy H)).
Defined.

(** *** The spiral wire *)

(** X15: the wire has 201 control points; point [i] is at height
    [12 * i / 200 - 6] and at distance [5.2 * (1 - i / 200) + 0.2] from the
    axis, between 0.2 and 5.4; heights strictly increase; the first point
    is (5.4, -6, 0) and, after exactly five turns, the last is
    (0.2, 6, 0). *)
Theorem wire_control_points (i j : nat) :
  (i < j)%nat -> (j <= TreeAccessories.segments)%nat ->
  let t := INR i / 200 in
  let r := 5.2 * (1 - t) + 0.2 in
  List.length TreeAccessories.wirePoints = 201%nat /\
  nth_error TreeAccessories.wirePoints i
    = Some (TreeAccessories.wirePoint i) /\
  y (TreeAccessories.wirePoint i) = 12 * t - 6 /\
  axisDistSq (TreeAccessories.wirePoint i) = r * r /\
  0.2 < r <= 5.4 /\
  y (TreeAccessories.wirePoint i) < y (TreeAccessories.wirePoint j) /\
  TreeAccessories.wirePoint 0 = mkVector3 5.4 (-6) 0 /\
  TreeAccessories.wirePoint TreeAccessories.segments = mkVector3 0.2 6 0.
Proof.
  intros Hij Hj t r.
  assert (H200 : INR TreeAccessories.segments = 200)
    by (unfold TreeAccessories.segments; simpl; lra).
  assert (Hi : 0 <= t < 1).
  { subst t. apply lt_INR in Hij. apply le_INR in Hj. rewrite H200 in Hj.
    pose proof (pos_INR i). lra. }
  split; [reflexivity |].
  split.
  { unfold TreeAccessories.wirePoints. rewrite nth_error_map, nth_error_seq.
    assert (Hlt : (i <? S TreeAccessories.segments)%nat = true)
      by (apply Nat.ltb_lt; lia).
    rewrite Hlt. reflexivity. }
  unfold TreeAccessories.wirePoint. cbv zeta. rewrite H200. cbn [x y z].
  unfold TREE_HEIGHT, TREE_RADIUS, TreeAccessories.turns.
  split; [subst t; lra |].
  split.
  { unfold axisDistSq. cbn [x z]. rewrite GeneratorFacts.cos_sin_circle.
    subst r t. lra. }
  split; [subst r; lra |].
  split.
  { apply lt_INR in Hij. lra. }
  split.
  - replace (INR 0 / 200 * PI * 2 * 5) with 0 by (simpl; lra).
    rewrite cos_0, sin_0. simpl INR. f_equal; lra.
  - replace (200 / 200 * PI * 2 * 5) with (0 + 2 * INR 5 * PI)
      by (simpl; lra).
    rewrite cos_period, sin_period, cos_0, sin_0. f_equal; lra.
Qed.

Lemma wire_control_points_witness :
  (0 < 200)%nat /\ (200 <= TreeAccessories.segments)%nat /\
  y (TreeAccessories.wirePoint 0) < y (TreeAccessories.wirePoint 200).
Proof.
  assert (Hij : (0 < 200)%nat) by lia.
  assert (Hj : (200 <= TreeAccessories.segments)%nat)
    by (unfold TreeAccessories.segments; lia).
  split; [exact Hij |]. split; [exact Hj |].
  destruct (wire_control_points 0 200 Hij Hj)
    as (_ & _ & _ & _ & _ & H & _).
  exact H.
Defined.

Lemma wireFrames_run (ps : list R) :
  forall g : TreeAccessories.WireGroup,
    option_map TreeAccessories.wireRotationY
      (fold_left (fun m p => TreeAccessories.wireFrame p m) ps (Some g))
      = Some (TreeAccessories.wireRotationY g
              + INR (List.length ps) * 0.005).
Proof.
  induction ps as [| p ps IH]; intros g.
  - simpl. f_equal. lra.
  - cbn [fold_left TreeAccessories.wireFrame]. rewrite IH.
    cbn [TreeAccessories.wireRotationY].
    change (List.length (p :: ps)) with (S (List.length ps)).
    rewrite S_INR. f_equal. lra.
Qed.

(** X16: the wire turns by 0.005 on every frame whatever the progress
    values are, so by [n * 0.005] over [n] frames; its scale and its tilt
    are those of the last frame's progress. *)
Theorem wire_spins_at_any_progress (ps : list R) (p : R)
  (g : TreeAccessories.WireGroup) :
  let run := fold_left (fun m q => TreeAccessories.wireFrame q m) in
  option_map TreeAccessories.wireRotationY (run ps (Some g))
    = Some (TreeAccessories.wireRotationY g + INR (List.length ps) * 0.005) /\
  option_map TreeAccessories.wireScale (run (ps ++ [p]) (Some g))
    = Some (1 + 3 * p) /\
  option_map TreeAccessories.wireRotationZ (run (ps ++ [p]) (Some g))
    = Some (p * (PI / 8)) /\
  run ps None = None.
Proof.
  intros run. subst run.
  split; [apply wireFrames_run |].
  assert (Hsome : exists g', fold_left
            (fun m q => TreeAccessories.wireFrame q m) ps (Some g)
            = Some g').
  { revert g. induction ps as [| q qs IH]; intros g; [exists g; reflexivity |].
    cbn [fold_left TreeAccessories.wireFrame]. apply IH. }
  destruct Hsome as [g' Hg'].
  rewrite !fold_left_app, Hg'. cbn [fold_left TreeAccessories.wireFrame
    option_map TreeAccessories.wireScale TreeAccessories.wireRotationZ].
  unfold lerp.
  split; [f_equal; lra |]. split; [f_equal; lra |].
  clear. induction ps as [| q qs IH]; [reflexivity | exact IH].
Qed.

End AccessoryFacts.

Module SnowFacts.

Import PopulationFacts MorePopulationFacts.

Lemma floor_bounds (v : R) : Snow.floor v <= v < Snow.floor v + 1.
Proof.
  unfold Snow.floor. destruct (base_Int_part v) as [Hlo Hhi]. lra.
Qed.

Lemma floor_succ (v : R) : Snow.floor (v + 1) = Snow.floor v + 1.
Proof.
  unfold Snow.floor. rewrite <- plus_IZR. f_equal. symmetry.
  apply Int_part_spec. rewrite plus_IZR.
  destruct (base_Int_part v) as [Hlo Hhi]. lra.
Qed.

Lemma glslMod_range (v w : R) : 0 < w -> 0 <= Snow.glslMod v w < w.
Proof.
  intros Hw. unfold Snow.glslMod.
  destruct (floor_bounds (v / w)) as [Hlo Hhi].
  assert (Hv : v = (v / w) * w) by (field; lra).
  split.
  - assert (w * Snow.floor (v / w) <= (v / w) * w) by nra. lra.
  - assert ((v / w) * w < w * (Snow.floor (v / w) + 1)) by nra. lra.
Qed.

Lemma glslMod_period (v w : R) :
  0 < w -> Snow.glslMod (v + w) w = Snow.glslMod v w.
Proof.
  intros Hw. unfold Snow.glslMod.
  replace ((v + w) / w) with (v / w + 1) by (field; lra).
  rewrite floor_succ. ring.
Qed.

(** X17: a snow vertex is always at a height in [(-25, 25]] and within
    1.5 of its flake's x and z; for a non-zero speed its height repeats
    after [50 / aSpeed] seconds. *)
Theorem snow_vertex_wraps (uTime : R) (f : Snow.Flake) :
  let v := Snow.vertexPos uTime f in
  -25 < y v <= 25 /\
  Rabs (x v - x (Snow.position f)) <= 1.5 /\
  Rabs (z v - z (Snow.position f)) <= 1.5 /\
  (Snow.aSpeed f <> 0 ->
   y (Snow.vertexPos (uTime + 50 / Snow.aSpeed f) f) = y v).
Proof.
  intros v. subst v. unfold Snow.vertexPos. cbv zeta. cbn [x y z].
  pose proof (glslMod_range
                (y (Snow.position f) + uTime * Snow.aSpeed f + 25.0) 50.0
                ltac:(lra)) as Hm.
  split; [lra |].
  split.
  { replace (x (Snow.position f) + sin (uTime * 0.2 + Snow.aPhase f) * 1.5
             - x (Snow.position f))
      with (sin (uTime * 0.2 + Snow.aPhase f) * 1.5) by ring.
    apply sin_offset_bound. lra. }
  split.
  { replace (z (Snow.position f) + cos (uTime * 0.3 + Snow.aPhase f) * 1.5
             - z (Snow.position f))
      with (cos (uTime * 0.3 + Snow.aPhase f) * 1.5) by ring.
    rewrite Rabs_mult, (Rabs_pos_eq 1.5) by lra.
    pose proof (COS_bound (uTime * 0.3 + Snow.aPhase f)).
    assert (Rabs (cos (uTime * 0.3 + Snow.aPhase f)) <= 1)
      by (apply Rabs_le; lra).
    nra. }
  intros Hs.
  assert (He : (uTime + 50 / Snow.aSpeed f) * Snow.aSpeed f
               = uTime * Snow.aSpeed f + 50) by (field; exact Hs).
  rewrite He.
  replace (y (Snow.position f) + (uTime * Snow.aSpeed f + 50) + 25.0)
    with (y (Snow.position f) + uTime * Snow.aSpeed f + 25.0 + 50.0)
    by lra.
  rewrite glslMod_period by lra. reflexivity.
Qed.

Lemma snow_vertex_wraps_witness :
  let f := Snow.mkFlake origin 2 0 1 in
  Snow.aSpeed f <> 0 /\
  y (Snow.vertexPos (0 + 50 / Snow.aSpeed f) f) = y (Snow.vertexPos 0 f).
Proof.
  intros f.
  assert (H : Snow.aSpeed f <> 0) by (simpl; lra).
  split; [exact H |].
  destruct (snow_vertex_wraps 0 f) as (_ & _ & _ & Hp).
  exact (Hp H).
Defined.

Lemma flake_run (i : nat) (g : Rng) :
  Snow.flake i g =
    (Snow.mkFlake
       (mkVector3 ((peek g 0 - 0.5) * 60) ((peek g 1 - 0.5) * 50)
          ((peek g 2 - 0.5) * 60))
       (2.0 + peek g 3 * 3.0)
       (peek g 4 * PI * 2)
       (peek g 5 * 1.5 + 0.5),
     mkRng (draws g) (cursor g + 6)).
Proof.
  unfold Snow.flake.
  replace g with (mkRng (draws g) (cursor g + 0)) at 1
    by (rewrite Nat.add_0_r; destruct g; reflexivity).
  unfold bind. rewrite !random_at. reflexivity.
Qed.

(** X18: with all draws in [[0,1)], a flake starts in the box
    [[-30, 30) x [-25, 25) x [-30, 30)], with speed in [[2, 5)], phase in
    [[0, 2 pi)] and size in [[0.5, 2)], from six draws; a fragment that is
    not discarded has alpha in [[0, 0.6]]. *)
Theorem snow_flake_ranges (i : nat) (g : Rng) (cx cy : R) :
  (forall k, 0 <= peek g k < 1) ->
  let f := fst (Snow.flake i g) in
  let g' := snd (Snow.flake i g) in
  -30 <= x (Snow.position f) < 30 /\
  -25 <= y (Snow.position f) < 25 /\
  -30 <= z (Snow.position f) < 30 /\
  2 <= Snow.aSpeed f < 5 /\
  0 <= Snow.aPhase f < 2 * PI /\
  0.5 <= Snow.aSize f < 2 /\
  draws g' = draws g /\ cursor g' = (cursor g + 6)%nat /\
  match Snow.fragmentAlpha cx cy with
  | None => True
  | Some a => 0 <= a <= 0.6
  end.
Proof.
  intros Hdraws f g'. subst f g'. rewrite flake_run.
  cbn [fst snd Snow.position Snow.aSpeed Snow.aPhase Snow.aSize x y z
       draws cursor].
  pose proof (Hdraws 0%nat). pose proof (Hdraws 1%nat).
  pose proof (Hdraws 2%nat). pose proof (Hdraws 3%nat).
  pose proof (Hdraws 4%nat). pose proof (Hdraws 5%nat).
  pose proof PI_RGT_0.
  repeat (split; [first [lra | nra | reflexivity] |]).
  unfold Snow.fragmentAlpha. cbv zeta.
  destruct (Rgt_dec _ 1.0) as [_ | Hin]; [exact I |].
  pose proof (Rle_0_sqr (2.0 * cx - 1.0)) as Hx.
  pose proof (Rle_0_sqr (2.0 * cy - 1.0)) as Hy.
  unfold Rsqr in Hx, Hy. lra.
Qed.

Lemma snow_flake_ranges_witness :
  let g := mkRng (fun _ => 0.5) 0 in
  (forall k, 0 <= peek g k < 1) /\
  2 <= Snow.aSpeed (fst (Snow.flake 0 g)) < 5.
Proof.
  intros g.
  assert (H : forall k, 0 <= peek g k < 1)
    by (intros k; unfold peek; simpl; lra).
  split; [exact H |].
  destruct (snow_flake_ranges 0 g 0 0 H) as (_ & _ & _ & Hs & _).
  exact Hs.
Defined.

End SnowFacts.

Module MoreGestureFacts.

Import App AppMore GestureController Scene SceneMore MorphFacts GestureFacts.

(** *** The toggle *)

(** X19: two clicks on the toggle restore the state and one click always
    changes it; [n] clicks leave the state as it was when [n] is even and
    flipped when it is odd; a gesture command lands on the same state
    however many clicks came before it. *)
Theorem toggle_parity (n : nat) (s : AppState) (c : Command) :
  toggleState (toggleState s) = s /\
  toggleState s <> s /\
  toggles n s = (if Nat.even n then s else toggleState s) /\
  applyGesture c (toggles n s) = applyGesture c s.
Proof.
  assert (Hinv : forall s, toggleState (toggleState s) = s)
    by (intros []; reflexivity).
  assert (Hpar : forall n s,
            toggles n s = if Nat.even n then s else toggleState s).
  { clear n s. induction n as [| n IH]; intros s; [reflexivity |].
    cbn [toggles]. rewrite IH, Nat.even_succ, <- Nat.negb_even.
    destruct (Nat.even n); cbn [negb]; [reflexivity | apply Hinv]. }
  split; [apply Hinv |]. split; [destruct s; discriminate |].
  split; [apply Hpar |].
  rewrite Hpar. destruct (Nat.even n), s, c; reflexivity.
Qed.

(** *** One call of [predictWebcam] *)

Lemma classifyFrame_frame (t : R) (r : GestureRecognizerResult)
  (c : Controller) :
  let o := classifyFrame t r c in
  (List.length (emitted o) <= 1)%nat /\
  (threw o = true -> emitted o = []) /\
  recognizerRef (after o) = recognizerRef c /\
  videoRef (after o) = videoRef c /\
  canvasRef (after o) = canvasRef c /\
  srcObject (after o) = srcObject c /\
  enabled (after o) = enabled c /\
  loading (after o) = loading c /\
  frameRequested (after o) = frameRequested c /\
  lastVideoTimeRef (after o) = t.
Proof.
  unfold classifyFrame.
  destruct (gestures r) as [| [| g hand] others]; cbv zeta.
  - simpl. repeat split; auto; discriminate.
  - simpl. repeat split; auto.
  - destruct (Rgt_dec (score g) 0.5); simpl.
    + unfold commandOf.
      destruct (categoryName g =? "Open_Palm")%string;
        [| destruct (categoryName g =? "Closed_Fist")%string];
        simpl; repeat split; auto; discriminate.
    + repeat split; auto; discriminate.
Qed.

Lemma predictWebcam_account (seen : bool) (t : R)
  (r : GestureRecognizerResult) (c : Controller) :
  let o := predictWebcam seen t r c in
  (List.length (emitted o) <= 1)%nat /\
  (emitted o <> [] ->
     t <> lastVideoTimeRef c /\ lastVideoTimeRef (after o) = t /\
     threw o = false) /\
  (lastVideoTimeRef (after o) = lastVideoTimeRef c \/
   lastVideoTimeRef (after o) = t) /\
  recognizerRef (after o) = recognizerRef c /\
  videoRef (after o) = videoRef c /\
  canvasRef (after o) = canvasRef c /\
  srcObject (after o) = srcObject c /\
  enabled (after o) = enabled c /\
  loading (after o) = loading c /\
  (frameRequested (after o) = true ->
     frameRequested c = true \/
     (seen = true /\ threw o = false /\ lastVideoTimeRef (after o) = t)).
Proof.
  intros o. subst o. unfold predictWebcam.
  destruct (negb (videoRef c) || negb (canvasRef c)
            || negb (recognizerRef c)).
  { cbn [after emitted threw List.length].
    repeat match goal with |- _ /\ _ => split end; auto.
    intros Habs. contradiction. }
  destruct (Req_dec_T t (lastVideoTimeRef c)) as [Heq | Hne].
  { cbn [threw].
    destruct seen; cbn [after emitted threw List.length setFrameRequested
      lastVideoTimeRef recognizerRef videoRef canvasRef srcObject enabled
      loading frameRequested];
      repeat match goal with |- _ /\ _ => split end; auto;
      intros Habs; contradiction. }
  destruct (classifyFrame_frame t r c)
    as (Hlen & Hthrew & Hr & Hv & Hc & Hs & He & Hl & Hf & Ht).
  cbv zeta in *.
  destruct (threw (classifyFrame t r c)) eqn:Hth.
  - pose proof (Hthrew eq_refl) as Hnil.
    repeat match goal with |- _ /\ _ => split end; auto.
    + intros Habs. rewrite Hnil in Habs. contradiction.
    + intros Hreq. left. congruence.
  - destruct seen;
      cbn [after emitted threw setFrameRequested lastVideoTimeRef
           recognizerRef videoRef canvasRef srcObject enabled loading
           frameRequested];
      repeat match goal with |- _ /\ _ => split end; auto.
    + intros Hreq. left. congruence.
Qed.

(** X20: one call of [predictWebcam] passes at most one command to
    [onGesture], and only for a timestamp that differs from the last
    processed one, which it then records; it never throws after emitting;
    the recorded timestamp is the old or the current one; the refs, the
    stream, [enabled] and [loading] are never touched; a frame is
    requested only by a closure that saw [enabled] true, after a call
    that did not throw. *)
Theorem predictWebcam_frame (seen : bool) (t : R)
  (r : GestureRecognizerResult) (c : Controller) :
  let o := predictWebcam seen t r c in
  (List.length (emitted o) <= 1)%nat /\
  (emitted o <> [] ->
     t <> lastVideoTimeRef c /\ lastVideoTimeRef (after o) = t /\
     threw o = false) /\
  (lastVideoTimeRef (after o) = lastVideoTimeRef c \/
   lastVideoTimeRef (after o) = t) /\
  recognizerRef (after o) = recognizerRef c /\
  videoRef (after o) = videoRef c /\
  canvasRef (after o) = canvasRef c /\
  srcObject (after o) = srcObject c /\
  enabled (after o) = enabled c /\
  loading (after o) = loading c /\
  (frameRequested (after o) = true ->
     frameRequested c = true \/
     (seen = true /\ threw o = false /\ lastVideoTimeRef (after o) = t)).
Proof. exact (predictWebcam_account seen t r c). Qed.

Lemma predictWebcam_frame_witness :
  let c := mkController true true true true (-1) true false "None" false in
  let r := mkResult [] [[mkCategory "Closed_Fist" 0.9]] in
  emitted (predictWebcam true 0 r c) <> [] /\
  lastVideoTimeRef (after (predictWebcam true 0 r c)) = 0.
Proof.
  intros c r.
  assert (H : emitted (predictWebcam true 0 r c) <> []).
  { unfold predictWebcam, classifyFrame, r, c. simpl.
    destruct (Req_dec_T 0 (-1)) as [Habs | _]; [lra |]. simpl.
    destruct (Rgt_dec 0.9 0.5) as [_ | Habs]; [| lra]. discriminate. }
  split; [exact H |].
  destruct (predictWebcam_frame true 0 r c) as (_ & Hemit & _).
  exact (proj1 (proj2 (Hemit H))).
Defined.

(** *** A whole run of the loop *)

Lemma predictWebcam_step (seen : bool) (t : R)
  (r : GestureRecognizerResult) (c : Controller) :
  frameRequested c = false ->
  let o := predictWebcam seen t r c in
  (List.length (emitted o)
     <= (if Req_dec_T t (lastVideoTimeRef c) then 0 else 1))%nat /\
  (frameRequested (after o) = true -> lastVideoTimeRef (after o) = t).
Proof.
  intros Hidle o.
  destruct (predictWebcam_account seen t r c)
    as (Hlen & Hemit & _ & _ & _ & _ & _ & _ & _ & Hreq).
  fold o in Hlen, Hemit, Hreq. split.
  - destruct (Req_dec_T t (lastVideoTimeRef c)) as [Heq | Hne];
      [| exact Hlen].
    destruct (emitted o) as [| cmd cmds] eqn:He; [simpl; lia |].
    assert (Hnn : cmd :: cmds <> []) by discriminate.
    destruct (Hemit Hnn) as (Hdiff & _). contradiction.
  - intros Hf. destruct (Hreq Hf) as [Habs | (_ & _ & Ht)];
      [congruence | exact Ht].
Qed.

(** X21: whatever the classifier answers, a run of the loop emits no more
    commands than it has frames whose timestamp differs from the one
    before; a closure that saw [enabled] false emits at most one command
    in all, as it never requests a second frame. *)
Theorem run_emits_at_most_once_per_fresh_frame (seen : bool)
  (frames : list (R * GestureRecognizerResult)) (c : Controller) :
  (List.length (snd (run seen frames c))
     <= freshFrames (lastVideoTimeRef c) (map fst frames))%nat /\
  (seen = false -> (List.length (snd (run seen frames c)) <= 1)%nat).
Proof.
  split.
  - revert c. induction frames as [| [t r] rest IH]; intros c;
      [simpl; lia |].
    cbn [run map fst freshFrames].
    destruct (predictWebcam_step seen t r (setFrameRequested false c)
                eq_refl) as [Hlen Hnext].
    cbv zeta in Hlen, Hnext.
    change (lastVideoTimeRef (setFrameRequested false c))
      with (lastVideoTimeRef c) in Hlen.
    set (o := predictWebcam seen t r (setFrameRequested false c)) in *.
    destruct (threw o || negb (frameRequested (after o))) eqn:Hstop.
    + cbn [snd]. lia.
    + apply orb_false_iff in Hstop as [_ Hreq].
      apply negb_false_iff in Hreq.
      specialize (IH (after o)). rewrite (Hnext Hreq) in IH.
      destruct (run seen rest (after o)) as [c' cmds]. cbn [snd] in *.
      rewrite length_app. lia.
  - intros ->. destruct frames as [| [t r] rest]; [simpl; lia |].
    cbn [run].
    destruct (predictWebcam_account false t r (setFrameRequested false c))
      as (Hlen & _ & _ & _ & _ & _ & _ & _ & _ & Hreq).
    cbv zeta in Hlen, Hreq.
    set (o := predictWebcam false t r (setFrameRequested false c)) in *.
    destruct (frameRequested (after o)) eqn:Hf.
    + destruct (Hreq eq_refl) as [Habs | (Habs & _)]; discriminate.
    + rewrite orb_true_r. cbn [snd]. exact Hlen.
Qed.

Lemma run_emits_at_most_once_per_fresh_frame_witness :
  let c := mkController true true true true (-1) true false "None" false in
  let r := mkResult [] [[mkCategory "Open_Palm" 0.9]] in
  let frames := [(0, r); (1, r); (2, r)] in
  false = false /\
  (List.length (snd (run false frames c)) <= 1)%nat.
Proof.
  intros c r frames. split; [reflexivity |].
  exact (proj2 (run_emits_at_most_once_per_fresh_frame false frames c)
           eq_refl).
Defined.

End MoreGestureFacts.

Module SceneFacts.

Import App AppMore GestureController Scene SceneMore MorphFacts GestureFacts.
Import MoreGestureFacts.

(** *** Camera and model life cycle *)

(** X22: [stopCamera] is idempotent; on a camera with a stream it clears
    the stream, [enabled] and the pending frame; without a stream it does
    nothing; it keeps the loaded model, so the load guard is unchanged, and
    the last processed timestamp. *)
Theorem stopCamera_releases (c : Controller) (active : bool) :
  stopCamera (stopCamera c) = stopCamera c /\
  (videoRef c = true -> srcObject c = true ->
     enabled (stopCamera c) = false /\
     srcObject (stopCamera c) = false /\
     frameRequested (stopCamera c) = false) /\
  (srcObject c = false -> stopCamera c = c) /\
  recognizerRef (stopCamera c) = recognizerRef c /\
  shouldLoad active (stopCamera c) = shouldLoad active c /\
  lastVideoTimeRef (stopCamera c) = lastVideoTimeRef c.
Proof.
  unfold stopCamera, shouldLoad.
  destruct c as [rr vr cr so lt en lo dg fr].
  destruct vr, so; cbn; repeat match goal with |- _ /\ _ => split end;
    auto; intros; try discriminate; auto.
Qed.

Lemma stopCamera_releases_witness :
  let c := mkController true true true true 0 true false "None" true in
  videoRef c = true /\ srcObject c = true /\
  enabled (stopCamera c) = false /\ frameRequested (stopCamera c) = false.
Proof.
  intros c.
  destruct (stopCamera_releases c true) as (_ & H & _).
  destruct (H eq_refl eq_refl) as (He & _ & Hf).
  split; [reflexivity |]. split; [reflexivity |].
  split; [exact He | exact Hf].
Defined.

(** X23: once a model is loaded the load guard is false whatever
    [active] is, and no later end of a load removes the model; a failed
    load leaves the guard as it was; [loading] is false after every end;
    without a model [startCamera] does nothing, and [startCamera] never
    sets [enabled]. *)
Theorem model_loads_once (c : Controller) (o : LoadOutcome)
  (active : bool) (p : Permission) :
  shouldLoad active (loadModelEnd Loaded (loadModelBegin c)) = false /\
  (recognizerRef c = true ->
     shouldLoad active c = false /\
     recognizerRef (loadModelEnd o c) = true) /\
  (o <> Loaded ->
     shouldLoad active (loadModelEnd o (loadModelBegin c))
       = shouldLoad active c) /\
  loading (loadModelEnd o (loadModelBegin c)) = false /\
  (recognizerRef c = false -> startCamera p c = (c, false)) /\
  enabled (fst (startCamera p c)) = enabled c.
Proof.
  unfold shouldLoad, loadModelEnd, loadModelBegin, startCamera.
  destruct c as [rr vr cr so lt en lo dg fr]. cbn.
  split; [apply andb_false_r |].
  split; [intros ->; split; [apply andb_false_r | destruct o; reflexivity] |].
  split; [intros Ho; destruct o; [reflexivity | reflexivity | contradiction] |].
  split; [destruct o; reflexivity |].
  split; [intros ->; reflexivity |].
  destruct rr; cbn; [| reflexivity].
  destruct p; [destruct vr |]; reflexivity.
Qed.

Lemma model_loads_once_witness :
  RecognizerFailed <> Loaded /\
  shouldLoad true (loadModelEnd RecognizerFailed (loadModelBegin initial))
    = shouldLoad true initial.
Proof.
  assert (H : RecognizerFailed <> Loaded) by discriminate.
  split; [exact H |].
  destruct (model_loads_once initial RecognizerFailed true Granted)
    as (_ & _ & Hf & _).
  exact (Hf H).
Defined.

(** *** The stale closure *)

Lemma forward_seen_TREE (cmds : list Command) (current : AppState) :
  forward TREE cmds current
    = if existsb (fun c => match c with SCATTER => true | GATHER => false end)
           cmds
      then SCATTERED else current.
Proof.
  unfold forward. revert current.
  induction cmds as [| c cs IH]; intros current; [reflexivity |].
  cbn [fold_left existsb]. rewrite IH.
  destruct c; cbn [handleGesture setAppState orb]; [| reflexivity].
  destruct (existsb _ cs); reflexivity.
Qed.

Lemma forward_seen_SCATTERED (cmds : list Command) (current : AppState) :
  forward SCATTERED cmds current
    = if existsb (fun c => match c with GATHER => true | SCATTER => false end)
           cmds
      then TREE else current.
Proof.
  unfold forward. revert current.
  induction cmds as [| c cs IH]; intros current; [reflexivity |].
  cbn [fold_left existsb]. rewrite IH.
  destruct c; cbn [handleGesture setAppState orb]; [reflexivity |].
  destruct (existsb _ cs); reflexivity.
Qed.

(** X24: commands forwarded through a handler are judged against the
    state that handler saw: the result is the current state or the
    opposite of the seen one, a current state opposite to the seen one is
    never changed, and so a handler that saw TREE cannot gather and one
    that saw SCATTERED cannot scatter. *)
Theorem stale_handler_is_one_way (seen current : AppState)
  (cmds : list Command) :
  (forward seen cmds current = current \/
   forward seen cmds current = toggleState seen) /\
  (current = toggleState seen -> forward seen cmds current = current) /\
  forward TREE (GATHER :: cmds) SCATTERED = forward TREE cmds SCATTERED /\
  forward SCATTERED [SCATTER] TREE = TREE /\
  forward TREE [GATHER] SCATTERED = SCATTERED.
Proof.
  split; [| split; [| repeat split]].
  - destruct seen.
    + rewrite forward_seen_TREE. destruct (existsb _ cmds); auto.
    + rewrite forward_seen_SCATTERED. destruct (existsb _ cmds); auto.
  - intros ->. destruct seen.
    + rewrite forward_seen_TREE. destruct (existsb _ cmds); reflexivity.
    + rewrite forward_seen_SCATTERED. destruct (existsb _ cmds); reflexivity.
Qed.

Lemma stale_handler_is_one_way_witness :
  SCATTERED = toggleState TREE /\
  forward TREE [GATHER; GATHER] SCATTERED = SCATTERED.
Proof.
  split; [reflexivity |].
  destruct (stale_handler_is_one_way TREE SCATTERED [GATHER; GATHER])
    as (_ & H & _).
  exact (H eq_refl).
Defined.

(** *** Runs of the application *)

Lemma step_loopIdle (e : Event) (w : World) :
  loopIdle w -> loopIdle (fst (step e w)).
Proof.
  unfold loopIdle. intros [Hf Hcl].
  destruct e as [| | | o | p | t r | t r]; cbn [step].
  - cbn. auto.
  - cbn. auto.
  - destruct (shouldLoad true (controller w)); cbn; auto.
  - destruct o; cbn; auto.
  - destruct (loading (controller w)); [cbn; auto |].
    destruct (enabled (controller w)) eqn:Hen.
    + cbn [fst controller callback]. split; [| exact Hcl].
      unfold stopCamera.
      destruct (videoRef (controller w) && srcObject (controller w));
        [reflexivity | exact Hf].
    + unfold startCamera.
      destruct (negb (recognizerRef (controller w))); [cbn; auto |].
      destruct p; [| cbn; auto].
      destruct (videoRef (controller w)); cbn; auto.
  - destruct (callback w) as [cl |] eqn:Hcb; [| cbn; rewrite Hcb; auto].
    unfold predict. cbn [fst controller callback]. rewrite Hcb.
    split; [| exact Hcl].
    destruct (predictWebcam_account (enabledSeen cl) t r
                (setEnabled true (controller w)))
      as (_ & _ & _ & _ & _ & _ & _ & _ & _ & Hreq).
    cbv zeta in Hreq.
    destruct (frameRequested
                (after (predictWebcam (enabledSeen cl) t r
                          (setEnabled true (controller w))))) eqn:Hfr;
      [| reflexivity].
    destruct (Hreq eq_refl) as [Habs | (Habs & _)].
    + cbn in Habs. congruence.
    + congruence.
  - destruct (callback w) as [cl |] eqn:Hcb; [| cbn; rewrite Hcb; auto].
    rewrite Hf. cbn. rewrite Hcb. auto.
Qed.

Lemma step_GestureFrame_idle (t : R) (r : GestureRecognizerResult)
  (w : World) :
  loopIdle w -> step (GestureFrame t r) w = (w, []).
Proof.
  intros [Hf _]. cbn [step]. rewrite Hf.
  destruct (callback w); reflexivity.
Qed.

Lemma step_emits (e : Event) (w : World) :
  loopIdle w ->
  (List.length (snd (step e w))
     <= match e with MetadataLoaded _ _ => 1 | _ => 0 end)%nat.
Proof.
  intros Hidle.
  destruct e as [| | | o | p | t r | t r].
  - cbn. lia.
  - cbn. lia.
  - cbn [step]. destruct (shouldLoad true (controller w)); cbn; lia.
  - cbn. lia.
  - cbn [step]. destruct (loading (controller w)); [cbn; lia |].
    destruct (enabled (controller w)); [cbn; lia |].
    destruct (startCamera p (controller w)). cbn. lia.
  - cbn [step]. destruct (callback w) as [cl |]; [| cbn; lia].
    unfold predict. cbn [snd].
    exact (proj1 (predictWebcam_account (enabledSeen cl) t r
                    (setEnabled true (controller w)))).
  - rewrite step_GestureFrame_idle by exact Hidle. cbn. lia.
Qed.

(** X25: the closure that [startCamera] installs saw [enabled] false, so
    from the first render on no animation frame is ever pending: a frame
    event changes nothing, and a run emits no more commands than it has
    metadata events. *)
Theorem animation_loop_never_continues (es : list Event) (w : World)
  (t : R) (r : GestureRecognizerResult) :
  loopIdle initialWorld /\
  (loopIdle w ->
   let w' := fst (runWith step es w) in
   loopIdle w' /\
   step (GestureFrame t r) w' = (w', []) /\
   (List.length (snd (runWith step es w))
      <= List.length
           (filter (fun e => match e with
                             | MetadataLoaded _ _ => true
                             | _ => false
                             end) es))%nat).
Proof.
  split; [split; reflexivity |].
  intros Hidle w'. subst w'.
  assert (Hrun : loopIdle (fst (runWith step es w)) /\
    (List.length (snd (runWith step es w))
       <= List.length
            (filter (fun e => match e with
                              | MetadataLoaded _ _ => true
                              | _ => false
                              end) es))%nat).
  { revert w Hidle. induction es as [| e es IH]; intros w Hidle.
    - split; [exact Hidle | cbn; lia].
    - cbn [runWith].
      pose proof (step_loopIdle e w Hidle) as Hnext.
      pose proof (step_emits e w Hidle) as Hlen.
      destruct (step e w) as [w1 c1]. cbn [fst snd] in Hnext, Hlen.
      destruct (IH w1 Hnext) as [Hinv Hrest].
      destruct (runWith step es w1) as [w2 c2]. cbn [fst snd] in *.
      split; [exact Hinv |].
      rewrite length_app. cbn [filter].
      destruct e; cbn [List.length]; lia. }
  destruct Hrun as [Hinv Hlen].
  split; [exact Hinv |]. split; [| exact Hlen].
  apply step_GestureFrame_idle, Hinv.
Qed.

Lemma animation_loop_never_continues_witness :
  loopIdle initialWorld /\
  step (GestureFrame 0 (mkResult [] []))
    (fst (runWith step [CameraButton Granted] initialWorld))
    = (fst (runWith step [CameraButton Granted] initialWorld), []).
Proof.
  destruct (animation_loop_never_continues [CameraButton Granted]
              initialWorld 0 (mkResult [] [])) as [Hinit Hrun].
  split; [exact Hinit |].
  exact (proj1 (proj2 (Hrun Hinit))).
Defined.

(** *** With the render between events *)

Lemma stepRendered_off (e : Event) (w : World) :
  enabled (controller w) = false -> videoRef (controller w) = false ->
  callback w = None ->
  let w' := fst (stepRendered e w) in
  snd (stepRendered e w) = [] /\
  enabled (controller w') = false /\ videoRef (controller w') = false /\
  callback w' = None /\
  appState w' = match e with
                | ToggleClicked => toggleState (appState w)
                | _ => appState w
                end.
Proof.
  intros Hen Hv Hcb. unfold stepRendered.
  destruct e as [| | | o | p | t r | t r]; cbn [step].
  - cbn. rewrite Hen. auto.
  - cbn. rewrite Hen. auto.
  - destruct (shouldLoad true (controller w)); cbn; rewrite Hen; auto.
  - destruct o; cbn; rewrite Hen; auto.
  - destruct (loading (controller w)); [cbn; rewrite Hen; auto |].
    rewrite Hen. unfold startCamera. rewrite Hv.
    destruct (negb (recognizerRef (controller w)));
      [cbn; rewrite Hen; auto |].
    destruct p; cbn; rewrite Hen; auto.
  - rewrite Hcb. cbn. rewrite Hen. auto.
  - rewrite Hcb. cbn. rewrite Hen. auto.
Qed.

(** X26: with the render between events (the video and the canvas exist
    only while [enabled]), from the first render on no event sequence
    switches gesture control on or emits a command: [startCamera] finds
    no video element; the state is then decided by the clicks on the
    toggle alone. *)
Theorem gestures_never_switch_on (es : list Event) (w : World) :
  enabled (controller initialWorld) = false /\
  videoRef (controller initialWorld) = false /\
  callback initialWorld = None /\
  (enabled (controller w) = false -> videoRef (controller w) = false ->
   callback w = None ->
   let w' := fst (runWith stepRendered es w) in
   snd (runWith stepRendered es w) = [] /\
   enabled (controller w') = false /\
   callback w' = None /\
   appState w'
     = toggles (List.length
                  (filter (fun e => match e with
                                    | ToggleClicked => true
                                    | _ => false
                                    end) es))
         (appState w)).
Proof.
  split; [reflexivity |]. split; [reflexivity |]. split; [reflexivity |].
  revert w. induction es as [| e es IH]; intros w Hen Hv Hcb.
  - cbn. auto.
  - cbn [runWith].
    destruct (stepRendered_off e w Hen Hv Hcb)
      as (Hc & Hen1 & Hv1 & Hcb1 & Hst).
    cbv zeta in *.
    destruct (stepRendered e w) as [w1 c1]. cbn [fst snd] in *.
    destruct (IH w1 Hen1 Hv1 Hcb1) as (Hc2 & Hen2 & Hcb2 & Hst2).
    cbv zeta in *.
    destruct (runWith stepRendered es w1) as [w2 c2]. cbn [fst snd] in *.
    subst c1 c2. split; [reflexivity |]. split; [exact Hen2 |].
    split; [exact Hcb2 |]. rewrite Hst2, Hst. cbn [filter].
    destruct e; reflexivity.
Qed.

Lemma gestures_never_switch_on_witness :
  let es := [LoadBegins; LoadEnds Loaded; CameraButton Granted;
             MetadataLoaded 0 (mkResult [] []); ToggleClicked] in
  enabled (controller initialWorld) = false /\
  snd (runWith stepRendered es initialWorld) = [] /\
  enabled (controller (fst (runWith stepRendered es initialWorld))) = false.
Proof.
  intros es.
  destruct (gestures_never_switch_on es initialWorld)
    as (Hen & Hv & Hcb & Hrun).
  destruct (Hrun Hen Hv Hcb) as (Hc & He & _).
  split; [exact Hen |]. split; [exact Hc | exact He].
Defined.

(** *** The progress value over a run *)

Lemma step_progress (e : Event) (w : World) :
  smoothProgress (fst (step e w))
    = match e with
      | AnimationFrame =>
        animate (morphTarget (appState w)) (smoothProgress w)
      | _ => smoothProgress w
      end.
Proof.
  destruct e as [| | | o | p | t r | t r]; cbn [step]; try reflexivity.
  - destruct (shouldLoad true (controller w)); reflexivity.
  - destruct (loading (controller w)); [reflexivity |].
    destruct (enabled (controller w)); [reflexivity |].
    destruct (startCamera p (controller w)); reflexivity.
  - destruct (callback w); reflexivity.
  - destruct (callback w); [| reflexivity].
    destruct (frameRequested (controller w)); reflexivity.
Qed.

Lemma frames_tick (n : nat) (w : World) :
  smoothProgress (fst (runWith step (repeat AnimationFrame n) w))
    = ticks n (morphTarget (appState w)) (smoothProgress w) /\
  appState (fst (runWith step (repeat AnimationFrame n) w)) = appState w /\
  snd (runWith step (repeat AnimationFrame n) w) = [].
Proof.
  revert w. induction n as [| n IH]; intros w; [cbn; auto |].
  cbn [repeat runWith step].
  destruct (IH (mkWorld (appState w)
                  (animate (morphTarget (appState w)) (smoothProgress w))
                  (controller w) (callback w))) as (Hp & Hs & Hc).
  destruct (runWith step (repeat AnimationFrame n) _) as [w2 c2].
  cbn [fst snd appState smoothProgress] in *. subst c2. auto.
Qed.

(** X27: over any sequence of events the progress stays in [[0, 1]], and
    136 animation frames after it the progress is exactly the target of
    the state reached, which those frames do not change. *)
Theorem progress_invariant (es : list Event) (w : World) :
  0 <= smoothProgress w <= 1 ->
  let w' := fst (runWith step es w) in
  let w'' := fst (runWith step (repeat AnimationFrame 136) w') in
  0 <= smoothProgress w' <= 1 /\
  smoothProgress w'' = morphTarget (appState w') /\
  appState w'' = appState w'.
Proof.
  intros Hp w' w''.
  assert (Hinv : 0 <= smoothProgress w' <= 1).
  { subst w'. clear w''. revert w Hp.
    induction es as [| e es IH]; intros w Hp; [exact Hp |].
    cbn [runWith].
    assert (Hstep : 0 <= smoothProgress (fst (step e w)) <= 1).
    { rewrite step_progress. destruct e; try exact Hp.
      pose proof (animate_between (morphTarget (appState w))
                    (smoothProgress w)) as [Hlo Hhi].
      assert (0 <= morphTarget (appState w) <= 1)
        by (destruct (appState w); simpl; lra).
      split.
      - eapply Rle_trans; [| exact Hlo]. apply Rmin_glb; lra.
      - eapply Rle_trans; [exact Hhi |]. apply Rmax_lub; lra. }
    destruct (step e w) as [w1 c1]. cbn [fst] in Hstep.
    specialize (IH w1 Hstep).
    destruct (runWith step es w1) as [w2 c2]. exact IH. }
  split; [exact Hinv |].
  destruct (frames_tick 136 w') as (Hticks & Hstate & _).
  fold w'' in Hticks, Hstate. split; [| exact Hstate].
  rewrite Hticks. apply ticks_reach; [| lia].
  assert (0 <= morphTarget (appState w') <= 1)
    by (destruct (appState w'); simpl; lra).
  apply Rabs_le. lra.
Qed.

Lemma progress_invariant_witness :
  0 <= smoothProgress initialWorld <= 1 /\
  0 <= smoothProgress
         (fst (runWith step [ToggleClicked; AnimationFrame] initialWorld))
    <= 1.
Proof.
  assert (H : 0 <= smoothProgress initialWorld <= 1) by (simpl; lra).
  split; [exact H |].
  exact (proj1 (progress_invariant [ToggleClicked; AnimationFrame]
                  initialWorld H)).
Defined.

End SceneFacts.
